(** * git-commits-scraper: the polling script [index.js]

    A shallow embedding of the whole script.  The script is one module of
    asynchronous functions that talk to the hosting platform (octokit), to a
    chat webhook (axios), to two files ([data.json], [commits.json]), to the
    wall clock and to the console.  All of these are made explicit:

    - what the outside answers is an environment [Env] (one answer per
      request, the time a request takes, the runtime's date rendering);
    - what the script changes is a [World] record that is threaded through a
      small monad [M] with exceptions ([Throw], a rejected promise or a thrown
      error) and divergence ([Hang], the [while (true)] loop out of fuel);
    - the timer installed by [startPolling] is a step function on the world
      whose events are timer ticks and the completion of the running cycle. *)

From Stdlib Require Import ZArith Lia Ascii String.
From stdpp Require Import gmap strings list pretty.

(** ** Data *)

(** A JavaScript number that is used as an instant: milliseconds since the
    epoch, or [NaN] (the time value of an invalid [Date]). *)
Inductive jsnum := Num (ms : Z) | NaN.

(** [a < b] on numbers: every comparison with [NaN] is false. *)
Definition js_lt (a b : jsnum) : bool :=
  match a, b with
  | Num x, Num y => (x <? y)%Z
  | _, _ => false
  end.

(** Values stored under a key of [data.json], by what [new Date] makes of
    them.
    - [JIso s] is the text [YYYY-MM-DDTHH:MM:SSZ] that names second [s] of
      the UTC time line, the year written with four digits; there is such a
      text for the seconds of the years 0000 to 9999.
    - [JInstant ms] is any other value that [new Date] reads as the instant
      [ms]: a date text with milliseconds or without a time of day, a
      number, [null].
    - [JUnpadded s] is the text [ISODateString] builds for second [s] of a
      year that does not have four digits: the year is printed as it is,
      and [new Date] does not read the text.
    - [JOther t] is any other value, kept by its text; [new Date] does not
      read it as an instant. *)
Inductive jval :=
| JIso (secs : Z)
| JInstant (ms : Z)
| JUnpadded (secs : Z)
| JOther (text : string).

(** The seconds of the years 0000 to 9999, from 0000-01-01T00:00:00Z to
    9999-12-31T23:59:59Z. *)
Definition four_digit_text (secs : Z) : bool :=
  (-62167219200 <=? secs)%Z && (secs <? 253402300800)%Z.

(** [new Date(v).getTime()] for a value read from a JSON object;
    a missing key is [undefined], whose date is invalid. *)
Definition Date_getTime (v : option jval) : jsnum :=
  match v with
  | Some (JIso s) => if four_digit_text s then Num (1000 * s) else NaN
  | Some (JInstant ms) => Num ms
  | Some (JUnpadded _) => NaN
  | Some (JOther _) => NaN
  | None => NaN
  end.

(** The instants of the years 1000 to 9999, from 1000-01-01T00:00:00.000Z to
    9999-12-31T23:59:59.999Z. *)
Definition four_digit_year (ms : Z) : bool :=
  (-30610224000000 <=? ms)%Z && (ms <? 253402300800000)%Z.

(** The time values of valid dates: at most 8.64e15 ms from the epoch. *)
Definition valid_time (ms : Z) : bool := (Z.abs ms <=? 8640000000000000)%Z.

(** [ISODateString d] of the date with time value [d]: the UTC fields down to
    the second are printed and the milliseconds are dropped.  Only the
    fields after the year are padded, so the text has the form that
    [new Date] reads back only for a year of four digits.  On an invalid
    date every field is [NaN] and [pad] returns it unchanged. *)
Definition ISODateString (d : jsnum) : jval :=
  match d with
  | Num ms =>
    if four_digit_year ms then JIso (ms / 1000)
    else if valid_time ms then JUnpadded (ms / 1000)
    else JOther "NaN-NaN-NaNTNaN:NaN:NaNZ"
  | NaN => JOther "NaN-NaN-NaNTNaN:NaN:NaNZ"
  end.

(** A repository of the listing: [owner.login], [name], and
    [new Date(pushed_at).getTime()]. *)
Record Repo := mkRepo {
  owner_login : string;
  name : string;
  pushed_at : Z
}.

Record Branch := mkBranch { branch_name : string }.

(** A commit of the platform's list: the fields [sendToDiscord] reads.
    The platform account [author] is null for a commit whose author e-mail
    matches no account. *)
Record Commit := mkCommit {
  commit_message : string;
  commit_author_name : string;
  commit_author_date : string;
  author : option string;   (* [commit.author], by its [login] *)
  html_url : string
}.

(** [{ branch, commits }] and [{ repo, branchCommits }]. *)
Record BranchCommits := mkBranchCommits {
  branch : string;
  commits : list Commit
}.

Record RepoUpdate := mkRepoUpdate {
  repo : string;
  branchCommits : list BranchCommits
}.

(** [config.json]. *)
Record Config := mkConfig {
  org : string;
  discordWebhook : string
}.

Definition POLLING_INTERVAL : Z := 1 * 60 * 1000.

(** ** The outside *)

Inductive Request :=
| GetOrgRepos (org : string) (pages : nat)
| GetRepoBranches (owner repo : string)
| GetCommits (owner repo branch : string) (since : jval)
| PostWebhook (url content : string).

(** The answer to a request: the [data] of the response, or a rejection with
    its [error.message]. *)
Inductive Response (A : Type) := Ok (data : A) | Fail (message : string).
Arguments Ok {A} data.
Arguments Fail {A} message.

Record Env := mkEnv {
  org_repos : string -> nat -> Response (list Repo);
  repo_branches : string -> string -> Response (list Branch);
  branch_commits : string -> string -> string -> jval -> Response (list Commit);
  webhook : string -> string -> Response unit;
  (** wall-clock time that passes while a request is awaited *)
  latency : Request -> Z;
  (** [new Date(s).toLocaleString('en-IN', { timeZone: 'Asia/Kolkata' })] *)
  toLocaleString : string -> string
}.

(** A line of the console, by its text; objects and numbers that the script
    passes after the text are left out. *)
Inductive LogLine :=
| Log (text : string)        (* console.log *)
| LogError (text : string).  (* console.error *)

(** Everything the script can change or observe from one moment to the next.
    [data_json] is the object parsed from [./data.json], or the error that
    reading and parsing it throws (a file that parses to something other
    than an object is not represented, and writing a file is taken to
    succeed); [commits_json] is the array written to [./commits.json], if
    any; [trace] holds the requests issued so far, each
    with the time at which it went out, in the order in which they went out;
    [console] holds the lines logged so far (the lines of callbacks that run
    side by side are kept callback by callback);
    [unhandled] collects rejections of promises nobody awaits;
    [isFetching] is the variable of [startPolling]; [interval] tells whether
    [setInterval] has installed the timer; [pending] is the cycle that a timer
    tick has started and that is suspended at its first request, by the
    [since] it carries. *)
Record World := mkWorld {
  clock : Z;
  data_json : Response (gmap string jval);
  commits_json : option (list RepoUpdate);
  trace : list (Z * Request);
  console : list LogLine;
  unhandled : list string;
  isFetching : bool;
  interval : bool;
  pending : option jsnum
}.

Definition set_clock (x : Z) (w : World) : World :=
  mkWorld x (data_json w) (commits_json w) (trace w) (console w)
          (unhandled w) (isFetching w) (interval w) (pending w).
Definition set_data_json (x : Response (gmap string jval)) (w : World)
    : World :=
  mkWorld (clock w) x (commits_json w) (trace w) (console w)
          (unhandled w) (isFetching w) (interval w) (pending w).
Definition set_commits_json (x : option (list RepoUpdate)) (w : World)
    : World :=
  mkWorld (clock w) (data_json w) x (trace w) (console w)
          (unhandled w) (isFetching w) (interval w) (pending w).
Definition set_trace (x : list (Z * Request)) (w : World) : World :=
  mkWorld (clock w) (data_json w) (commits_json w) x (console w)
          (unhandled w) (isFetching w) (interval w) (pending w).
Definition set_console (x : list LogLine) (w : World) : World :=
  mkWorld (clock w) (data_json w) (commits_json w) (trace w) x
          (unhandled w) (isFetching w) (interval w) (pending w).
Definition set_unhandled (x : list string) (w : World) : World :=
  mkWorld (clock w) (data_json w) (commits_json w) (trace w) (console w)
          x (isFetching w) (interval w) (pending w).
Definition set_isFetching (x : bool) (w : World) : World :=
  mkWorld (clock w) (data_json w) (commits_json w) (trace w) (console w)
          (unhandled w) x (interval w) (pending w).
Definition set_interval (x : bool) (w : World) : World :=
  mkWorld (clock w) (data_json w) (commits_json w) (trace w) (console w)
          (unhandled w) (isFetching w) x (pending w).
Definition set_pending (x : option jsnum) (w : World) : World :=
  mkWorld (clock w) (data_json w) (commits_json w) (trace w) (console w)
          (unhandled w) (isFetching w) (interval w) x.

(** The requests issued so far, in the order in which they went out. *)
Definition requests (w : World) : list Request := map snd (trace w).

(** ** The monad of asynchronous functions *)

Inductive Outcome (A : Type) :=
| Ret (a : A)              (* returned / promise fulfilled *)
| Throw (message : string) (* threw / promise rejected *)
| Hang.                    (* still running when the fuel ran out *)
Arguments Ret {A} a.
Arguments Throw {A} message.
Arguments Hang {A}.

Definition M (A : Type) : Type := World -> Outcome A * World.

Definition ret {A} (a : A) : M A := fun w => (Ret a, w).
Definition throw {A} (m : string) : M A := fun w => (Throw m, w).
Definition hang {A} : M A := fun w => (Hang, w).

Definition bind {A B} (m : M A) (k : A -> M B) : M B := fun w =>
  match m w with
  | (Ret a, w') => k a w'
  | (Throw msg, w') => (Throw msg, w')
  | (Hang, w') => (Hang, w')
  end.

(** [try { m } catch (error) { h error.message }] *)
Definition try_catch {A} (m : M A) (h : string -> M A) : M A := fun w =>
  match m w with
  | (Throw msg, w') => h msg w'
  | r => r
  end.

(** Calling an async function without awaiting it: a rejection stays with the
    promise and the caller goes on. *)
Definition detached (m : M unit) : M unit := fun w =>
  match m w with
  | (Throw msg, w') => (Ret tt, set_unhandled (unhandled w' ++ [msg]) w')
  | r => r
  end.

Declare Scope js_scope.
Delimit Scope js_scope with js.
Notation "'let*' x ':=' m 'in' k" := (bind m (fun x => k))
  (at level 10, x name, m at level 100, k at level 200) : js_scope.
Open Scope js_scope.

(** Two logs of requests, each in the order in which its requests went out,
    put together in that order; of two requests that went out at the same
    time the one of the first log comes first. *)
Fixpoint merge_by_time (a : list (Z * Request))
    : list (Z * Request) -> list (Z * Request) :=
  match a with
  | [] => fun b => b
  | x :: a' =>
    fix merge_into (b : list (Z * Request)) : list (Z * Request) :=
      match b with
      | [] => x :: a'
      | y :: b' =>
        if (fst x <=? fst y)%Z then x :: merge_by_time a' b
        else y :: merge_into b'
      end
  end.

(** [await Promise.all(l.map(f))].  [l.map(f)] starts every callback at
    once, so each of them runs from the time of the call: the callback of the
    first element runs from [w], the others run from the same time, and
    [Promise.all] is settled when the last of them is.  The requests of the
    callbacks leave in the order of their times.  The callbacks of this
    script never reject; were one to reject, the embedding would let the
    others finish before the rejection is seen. *)
Fixpoint promise_all_map {A B} (f : A -> M B) (l : list A) : M (list B) :=
  fun w =>
    match l with
    | [] => (Ret [], w)
    | x :: l' =>
      let '(first, w1) := f x w in
      let '(others, w2) := promise_all_map f l' (set_clock (clock w) w1) in
      let mine := drop (length (trace w)) (trace w1) in
      let theirs := drop (length (trace w1)) (trace w2) in
      let w' := set_clock (Z.max (clock w1) (clock w2))
                  (set_trace (trace w ++ merge_by_time mine theirs) w2) in
      match first, others with
      | Ret y, Ret ys => (Ret (y :: ys), w')
      | Throw msg, _ => (Throw msg, w')
      | _, Throw msg => (Throw msg, w')
      | _, _ => (Hang, w')
      end
    end.

Definition console_log (s : string) : M unit := fun w =>
  (Ret tt, set_console (console w ++ [Log s]) w).
Definition console_error (s : string) : M unit := fun w =>
  (Ret tt, set_console (console w ++ [LogError s]) w).

(** [new Date()]: read the wall clock. *)
Definition Date_now : M Z := fun w => (Ret (clock w), w).

(** [await octokit.request(...)] / [await axios.post(...)]: the request goes
    out, time passes, the answer arrives. *)
Definition await_request {A} (e : Env) (r : Request) (answer : Response A) : M A :=
  fun w =>
    let w' := set_clock (clock w + latency e r)%Z
                (set_trace (trace w ++ [(clock w, r)]) w) in
    match answer with
    | Ok a => (Ret a, w')
    | Fail msg => (Throw msg, w')
    end.

(** ** getOrgRepos *)

(** [new Date(repoListPage[index].pushed_at).getTime()].  The loop only reads
    indices inside the array. *)
Definition pushedAt_of (repoListPage : list Repo) (index : Z) : jsnum :=
  match repoListPage !! Z.to_nat index with
  | Some r => Num (pushed_at r)
  | None => NaN
  end.

(** The inner loop
    [while (pushedAt < since) { pop; index--; if (index < 0) break; pushedAt = ... }]
    on the state [(repoListPage, index, pushedAt)].  An iteration pops one
    entry, so [length repoListPage] iterations are enough; [n] counts them. *)
Fixpoint trim_loop (n : nat) (since : jsnum)
    (repoListPage : list Repo) (index : Z) (pushedAt : jsnum)
    : list Repo * jsnum :=
  match n with
  | O => (repoListPage, pushedAt)
  | S n' =>
    if js_lt pushedAt since then
      let repoListPage := removelast repoListPage in
      let index := (index - 1)%Z in
      if (index <? 0)%Z then (repoListPage, pushedAt)
      else trim_loop n' since repoListPage index (pushedAt_of repoListPage index)
    else (repoListPage, pushedAt)
  end.

(** Lines 160-169: the page after the backward trim, and the last value of
    [pushedAt]. *)
Definition trim (since : jsnum) (repoListPage : list Repo) : list Repo * jsnum :=
  let index := (Z.of_nat (length repoListPage) - 1)%Z in
  trim_loop (length repoListPage) since repoListPage index
            (pushedAt_of repoListPage index).

(** The outer [while (true)] loop, one unit of fuel per iteration. *)
Fixpoint getOrgRepos_loop (fuel : nat) (e : Env) (org : string) (since : jsnum)
    (repoList : list Repo) (pages : nat) : M (list Repo) :=
  match fuel with
  | O => hang
  | S fuel' =>
    let* _ := console_log ("Fetching page " +:+ pretty pages) in
    let* repoListPage :=
      await_request e (GetOrgRepos org pages) (org_repos e org pages) in
    if (length repoListPage =? 0)%nat then ret repoList
    else
      let pages := S pages in
      let '(repoListPage, pushedAt) := trim since repoListPage in
      let repoList := repoList ++ repoListPage in
      if js_lt pushedAt since then ret repoList
      else getOrgRepos_loop fuel' e org since repoList pages
  end.

Definition getOrgRepos (fuel : nat) (e : Env) (org : string) (since : jsnum)
    : M (list Repo) :=
  getOrgRepos_loop fuel e org since [] 1.

(** The world after the line [Fetching page ...] is logged and the answer to
    the request of page [pages] has arrived. *)
Definition after_page_request (e : Env) (org : string) (pages : nat)
    (w : World) : World :=
  let w := set_console (console w ++ [Log ("Fetching page " +:+ pretty pages)]) w in
  set_clock (clock w + latency e (GetOrgRepos org pages))%Z
            (set_trace (trace w ++ [(clock w, GetOrgRepos org pages)]) w).

(** ** The watermark file *)

(** [getLastCheck]: parse [./data.json], log, return the time value of its
    [last_checked]. *)
Definition getLastCheck : M jsnum := fun w =>
  match data_json w with
  | Fail msg => (Throw msg, w)
  | Ok data =>
    (let* _ := console_log "last_checked: " in
     ret (Date_getTime (data !! "last_checked"))) w
  end.

(** [writeLastCheck]: read the object, assign its [last_checked], write the
    object back. *)
Definition writeLastCheck (last_checked : Z) : M unit := fun w =>
  match data_json w with
  | Fail msg => (Throw msg, w)
  | Ok data =>
    let data := <["last_checked" := ISODateString (Num last_checked)]> data in
    (Ret tt, set_data_json (Ok data) w)
  end.

(** ** sendToDiscord *)

Definition nl : string := String "010"%char EmptyString.

(** The block of one commit; [None] when building it throws: reading
    [commit.author.login] of a null [commit.author] is a TypeError. *)
Definition block_of (e : Env) (commit : Commit) : option string :=
  match author commit with
  | None => None
  | Some login =>
    Some ("**Commit Message**: " +:+ commit_message commit +:+ nl +:+
          "**Author**: " +:+ commit_author_name commit +:+
            " (<@" +:+ login +:+ ">)" +:+ nl +:+
          "**Date**: " +:+ toLocaleString e (commit_author_date commit) +:+
            " IST" +:+ nl +:+
          "**Link**: " +:+ html_url commit +:+ nl +:+
          "--------------")
  end.

(** [commitLogs.map(...)] *)
Fixpoint blocks_of (e : Env) (commitLogs : list Commit) : option (list string) :=
  match commitLogs with
  | [] => Some []
  | commit :: rest =>
    match block_of e commit, blocks_of e rest with
    | Some b, Some bs => Some (b :: bs)
    | _, _ => None
    end
  end.

(** The [message] of line 18. *)
Definition message_of (e : Env) (repoName branchName : string)
    (commitLogs : list Commit) : option string :=
  match blocks_of e commitLogs with
  | Some blocks =>
    Some ("**Repository**: " +:+ repoName +:+ nl +:+
          "**Branch**: " +:+ branchName +:+ nl +:+ nl +:+
          String.concat nl blocks)
  | None => None
  end.

Definition sendToDiscord (cfg : Config) (e : Env)
    (repoName branchName : string) (commitLogs : list Commit) : M unit :=
  match message_of e repoName branchName commitLogs with
  | None => throw "Cannot read properties of null (reading 'login')"
  | Some message =>
    try_catch
      (let* _ := await_request e (PostWebhook (discordWebhook cfg) message)
                   (webhook e (discordWebhook cfg) message) in
       console_log "Commit logs sent to Discord")
      (fun error_message =>
         console_error ("Error sending message to Discord: " +:+ error_message))
  end.

(** ** Branches and commits *)

Definition getRepoBranches (e : Env) (owner repo : string) : M (list Branch) :=
  try_catch
    (await_request e (GetRepoBranches owner repo) (repo_branches e owner repo))
    (fun error_message =>
       let* _ := console_error ("Error fetching branches for " +:+ owner +:+ "/"
                                +:+ repo +:+ ": " +:+ error_message) in
       ret []).

Definition getBranchCommits (cfg : Config) (e : Env)
    (owner repo branch : string) (since : jsnum) : M (list Commit) :=
  let since := ISODateString since in
  try_catch
    (let* commits := await_request e (GetCommits owner repo branch since)
                       (branch_commits e owner repo branch since) in
     let* _ := (if (0 <? length commits)%nat
                then sendToDiscord cfg e repo branch commits
                else ret tt) in
     ret commits)
    (fun error_message =>
       let* _ := console_error ("Error fetching commits for branch " +:+ branch
                                +:+ " of " +:+ owner +:+ "/" +:+ repo +:+ ": "
                                +:+ error_message) in
       ret []).

(** ** getOrgCommits

    [repos.map(async ...)] and [branches.map(async ...)] start one async
    function per element and [Promise.all] waits for all of them
    ([promise_all_map]).  The functions share nothing but the console and
    the log of requests, and none of them rejects. *)

(** The callback of [branches.map]. *)
Definition branchUpdate (cfg : Config) (e : Env) (since : jsnum)
    (repoInfo : Repo) (b : Branch) : M BranchCommits :=
  let* commits := getBranchCommits cfg e (owner_login repoInfo) (name repoInfo)
                    (branch_name b) since in
  let* _ :=
    (if (length commits =? 0)%nat
     then console_log ("No recent commits on branch " +:+ branch_name b +:+
                       " of repo " +:+ name repoInfo)
     else console_log ("Fetched " +:+ pretty (length commits) +:+
                       " commits on branch " +:+ branch_name b +:+
                       " of repo " +:+ name repoInfo)) in
  ret {| branch := branch_name b; commits := commits |}.

(** The callback of [repos.map]; [None] is its [return null]. *)
Definition repoUpdate (cfg : Config) (e : Env) (since : jsnum)
    (repoInfo : Repo) : M (option RepoUpdate) :=
  let* branches := getRepoBranches e (owner_login repoInfo) (name repoInfo) in
  let* _ := console_log ("Fetched branches for " +:+ name repoInfo +:+ ":") in
  if (length branches =? 0)%nat then
    let* _ := console_log ("Repo " +:+ name repoInfo +:+
                           " has no branches (empty)") in
    ret None
  else
    let* branchCommits := promise_all_map (branchUpdate cfg e since repoInfo) branches in
    ret (Some {| repo := name repoInfo; branchCommits := branchCommits |}).

(** The names pushed to [emptyRepos]: the repositories whose callback
    returned null. *)
Definition emptyRepos_of (repos : list Repo)
    (reposUpdates : list (option RepoUpdate)) : list string :=
  omap (fun ru => match snd ru with
                  | None => Some (name (fst ru))
                  | Some _ => None
                  end) (zip repos reposUpdates).

Definition getOrgCommits (cfg : Config) (e : Env) (fuel : nat)
    (org : string) (since : jsnum) : M (list RepoUpdate) :=
  let* repos := getOrgRepos fuel e org since in
  let* _ := console_log "Fetched repos:" in
  let* reposUpdates := promise_all_map (repoUpdate cfg e since) repos in
  let emptyRepos := emptyRepos_of repos reposUpdates in
  (* .filter(Boolean), then [].concat.apply([], ...) of non-array elements *)
  let filteredReposUpdates := omap id reposUpdates in
  let orgCommits := filteredReposUpdates in
  let* _ := (if (0 <? length emptyRepos)%nat
             then console_log "Empty repositories (no branches):"
             else ret tt) in
  let* _ := (if (0 <? length repos)%nat
             then fun w => (Ret tt, set_commits_json (Some orgCommits) w)
             else ret tt) in
  let* now := Date_now in
  let* _ := detached (writeLastCheck now) in
  ret orgCommits.

(** ** main and startPolling *)

Definition main (cfg : Config) (e : Env) (fuel : nat) : M unit :=
  let* since := getLastCheck in
  let* _ := getOrgCommits cfg e fuel (org cfg) since in
  ret tt.

(** [try { m } finally { f }] *)
Definition try_finally {A} (m : M A) (f : M unit) : M A := fun w =>
  match m w with
  | (Hang, w') => (Hang, w')
  | (r, w') =>
    match f w' with
    | (Ret _, w'') => (r, w'')
    | (Throw msg, w'') => (Throw msg, w'')
    | (Hang, w'') => (Hang, w'')
    end
  end.

Definition assign_isFetching (b : bool) : M unit := fun w =>
  (Ret tt, set_isFetching b w).

(** The function given to [setInterval], run without interruption. *)
Definition timer_callback (cfg : Config) (e : Env) (fuel : nat) : M unit := fun w =>
  if isFetching w then
    console_log "Previous fetch still in progress, skipping this cycle." w
  else
    try_finally
      (try_catch
         (let* _ := assign_isFetching true in
          let* _ := console_log "Fetching commits..." in
          let* _ := main cfg e fuel in
          console_log "Fetching completed.")
         (fun error_message =>
            console_error ("Error during fetch: " +:+ error_message)))
      (assign_isFetching false) w.

(** [startPolling]: the first cycle is awaited, then the timer is installed. *)
Definition startPolling (cfg : Config) (e : Env) (fuel : nat) : M unit :=
  let* _ := assign_isFetching false in
  try_catch
    (let* _ := console_log "Fetching commits..." in
     let* _ := main cfg e fuel in
     let* _ := console_log "Fetching completed." in
     fun w => (Ret tt, set_interval true w))
    (fun error_message =>
       console_error ("Error during initial fetch: " +:+ error_message)).

(** ** The process after startPolling

    The timer fires while a cycle is suspended at a request, so the callback
    is split where it first suspends: [begin_cycle] is the callback up to the
    first request of [getOrgRepos] ([getLastCheck] reads the file at once),
    [settle] is the rest, run when the environment has answered.  A tick that
    finds [isFetching] set only writes to the console, so where it falls
    between the requests of the running cycle changes nothing else. *)

Definition skip_tick : M unit :=
  console_log "Previous fetch still in progress, skipping this cycle.".

Definition on_fetch_error (error_message : string) : M unit :=
  console_error ("Error during fetch: " +:+ error_message).

Definition begin_cycle : M unit := fun w =>
  match (let* _ := assign_isFetching true in
         let* _ := console_log "Fetching commits..." in
         getLastCheck) w with
  | (Ret since, w') => (Ret tt, set_pending (Some since) w')
  | (Throw msg, w') =>
    (let* _ := on_fetch_error msg in assign_isFetching false) w'
  | (Hang, w') => (Hang, w')
  end.

Definition finish_cycle (cfg : Config) (e : Env) (fuel : nat) (since : jsnum)
    : M unit :=
  try_finally
    (try_catch
       (let* _ := getOrgCommits cfg e fuel (org cfg) since in
        console_log "Fetching completed.")
       on_fetch_error)
    (assign_isFetching false).

Inductive Event :=
| Tick                            (* the interval timer fires *)
| Settle (e : Env) (fuel : nat).  (* the running cycle runs to its end *)

(** One event of the process; [None] when the event cannot happen: no tick
    without a timer, nothing to settle without a running cycle or when the
    cycle does not end within [fuel] pages. *)
Definition step (cfg : Config) (w : World) (ev : Event) : option World :=
  match ev with
  | Tick =>
    if interval w then
      if isFetching w then Some (snd (skip_tick w))
      else Some (snd (begin_cycle w))
    else None
  | Settle e fuel =>
    match pending w with
    | None => None
    | Some since =>
      match finish_cycle cfg e fuel since (set_pending None w) with
      | (Hang, _) => None
      | (_, w') => Some w'
      end
    end
  end.

Fixpoint steps (cfg : Config) (w : World) (evs : list Event) : option World :=
  match evs with
  | [] => Some w
  | ev :: evs' =>
    match step cfg w ev with
    | Some w' => steps cfg w' evs'
    | None => None
    end
  end.

(** ** The platform as a paginated list *)

Definition per_page : nat := 10.

(** Page [pages] (from 1) of the list [R]. *)
Definition paginate (R : list Repo) (pages : nat) : list Repo :=
  take per_page (drop (per_page * (pages - 1)) R).

(** Descending by push time. *)
Fixpoint descending (R : list Repo) : Prop :=
  match R with
  | [] => True
  | r :: R' => Forall (fun r' => (pushed_at r' <= pushed_at r)%Z) R' /\ descending R'
  end.

(** The entries with push instant at or after [W]. *)
Definition recent (W : Z) (R : list Repo) : list Repo :=
  filter (fun r => (W <= pushed_at r)%Z) R.

(** ** Observations used in the statements *)

(** The watermark a cycle would read now: what [getLastCheck] returns. *)
Definition watermark (w : World) : jsnum :=
  match data_json w with
  | Ok data => Date_getTime (data !! "last_checked")
  | Fail _ => NaN
  end.

(** Every request of the log [new] went out at or after [t] and had its
    answer at or before [t']. *)
Definition within (e : Env) (t t' : Z) (new : list (Z * Request)) : Prop :=
  Forall (fun tr => (t <= fst tr)%Z /\
                    (fst tr + latency e (snd tr) <= t')%Z) new.

(** [w'] is [w] after some requests went out and some lines were logged:
    the log of requests has grown at its end; when no request takes negative
    time, the clock has not gone back and every new request went out and was
    answered between the two readings of the clock; the files, the unhandled
    rejections and the variables of [startPolling] are as they were. *)
Definition net_step (e : Env) (w w' : World) : Prop :=
  (exists new, trace w' = trace w ++ new /\
               ((forall r, (0 <= latency e r)%Z) ->
                (clock w <= clock w')%Z /\
                within e (clock w) (clock w') new)) /\
  data_json w' = data_json w /\
  commits_json w' = commits_json w /\
  unhandled w' = unhandled w /\
  isFetching w' = isFetching w /\
  interval w' = interval w /\
  pending w' = pending w.

(** A computation that only issues requests and logs. *)
Definition networked {A} (e : Env) (m : M A) : Prop :=
  forall w, net_step e w (snd (m w)).

(** The world once [getOrgCommits] has written its files: [commits] is the
    array it writes to [./commits.json], if it writes one; then the clock is
    read and [writeLastCheck] is called without being awaited. *)
Definition persist_world (commits : option (list RepoUpdate)) (w : World) : World :=
  let w := match commits with
           | Some c => set_commits_json (Some c) w
           | None => w
           end in
  snd (detached (writeLastCheck (clock w)) w).

(** What one unit of a cycle contributes, from the answers to its own
    requests alone. *)
Definition branches_of (e : Env) (owner repo : string) : list Branch :=
  match repo_branches e owner repo with
  | Ok branches => branches
  | Fail _ => []
  end.

(** The commit list the platform returns for a branch; empty when the
    request fails. *)
Definition fetched_commits (e : Env) (owner repo branch : string)
    (since : jsnum) : list Commit :=
  match branch_commits e owner repo branch (ISODateString since) with
  | Ok commits => commits
  | Fail _ => []
  end.

(** The commit list [getBranchCommits] returns for a branch. *)
Definition commits_of (e : Env) (owner repo branch : string)
    (since : jsnum) : list Commit :=
  let commits := fetched_commits e owner repo branch since in
  match commits with
  | [] => []
  | _ :: _ =>
    match message_of e repo branch commits with
    | Some _ => commits
    | None => []
    end
  end.

(** The webhook calls made for a branch. *)
Definition posts_of (cfg : Config) (e : Env) (owner repo branch : string)
    (since : jsnum) : list Request :=
  let commits := fetched_commits e owner repo branch since in
  match commits with
  | [] => []
  | _ :: _ =>
    match message_of e repo branch commits with
    | Some message => [PostWebhook (discordWebhook cfg) message]
    | None => []
    end
  end.

Definition branch_result (e : Env) (since : jsnum) (repoInfo : Repo)
    (b : Branch) : BranchCommits :=
  {| branch := branch_name b;
     commits := commits_of e (owner_login repoInfo) (name repoInfo)
                           (branch_name b) since |}.

Definition repo_result (e : Env) (since : jsnum) (repoInfo : Repo)
    : option RepoUpdate :=
  match branches_of e (owner_login repoInfo) (name repoInfo) with
  | [] => None
  | branches =>
    Some {| repo := name repoInfo;
            branchCommits := map (branch_result e since repoInfo) branches |}
  end.

Definition cycle_result (e : Env) (since : jsnum) (repos : list Repo)
    : list RepoUpdate :=
  omap (repo_result e since) repos.

Definition is_post (r : Request) : bool :=
  match r with
  | PostWebhook _ _ => true
  | _ => false
  end.

(** The requests a cycle issues after the listing, unit by unit: which
    requests go out, not the order in which the units, running side by side,
    send them. *)
Definition branch_requests (cfg : Config) (e : Env) (since : jsnum)
    (repoInfo : Repo) (b : Branch) : list Request :=
  GetCommits (owner_login repoInfo) (name repoInfo) (branch_name b)
             (ISODateString since)
  :: posts_of cfg e (owner_login repoInfo) (name repoInfo) (branch_name b) since.

Definition repo_requests (cfg : Config) (e : Env) (since : jsnum)
    (repoInfo : Repo) : list Request :=
  GetRepoBranches (owner_login repoInfo) (name repoInfo)
  :: flat_map (branch_requests cfg e since repoInfo)
              (branches_of e (owner_login repoInfo) (name repoInfo)).

Definition cycle_requests (cfg : Config) (e : Env) (since : jsnum)
    (repos : list Repo) : list Request :=
  flat_map (repo_requests cfg e since) repos.

(** The variables of [startPolling] and the timer are the same in [w']
    as in [w]. *)
Definition same_vars (w w' : World) : Prop :=
  isFetching w' = isFetching w /\
  interval w' = interval w /\
  pending w' = pending w.

(** The world in which the first cycle of [startPolling] runs. *)
Definition first_cycle_world (w : World) : World :=
  snd (console_log "Fetching commits..." (set_isFetching false w)).

(** ** Scenarios *)

Module Scenario.
Definition cfg : Config :=
  {| org := "marlinprotocol";
     discordWebhook := "https://discord.test/api/webhooks/1" |}.

Definition repo_at (n : string) (t : Z) : Repo :=
  {| owner_login := "marlinprotocol"; name := n; pushed_at := t |}.

(** Ten repositories, most recently pushed first: one full page. *)
Definition ten : list Repo :=
  [repo_at "r0" 100; repo_at "r1" 90; repo_at "r2" 80; repo_at "r3" 70;
   repo_at "r4" 60; repo_at "r5" 50; repo_at "r6" 40; repo_at "r7" 30;
   repo_at "r8" 20; repo_at "r9" 10].

(** One repository pushed 950 s after the epoch. *)
Definition one : list Repo := [repo_at "A" 950000].

Definition commit_by (login : option string) : Commit :=
  {| commit_message := "Fix typo";
     commit_author_name := "Ann";
     commit_author_date := "2024-05-01T10:00:00Z";
     author := login;
     html_url := "https://github.test/marlinprotocol/A/commit/c0ffee" |}.

(** A platform that lists [R] ten per page, answers [branches] for every
    repository and [commits] for every branch, and whose webhook answers
    [hook]; every request takes five seconds. *)
Definition platform (R : list Repo) (branches : Response (list Branch))
    (commits : Response (list Commit)) (hook : Response unit) : Env :=
  {| org_repos := fun _ pages => Ok (paginate R pages);
     repo_branches := fun _ _ => branches;
     branch_commits := fun _ _ _ _ => commits;
     webhook := fun _ _ => hook;
     latency := fun _ => 5000%Z;
     toLocaleString := fun s => s |}.

(** The listing itself is refused. *)
Definition down : Env :=
  {| org_repos := fun _ _ => Fail "Bad credentials";
     repo_branches := fun _ _ => Ok [];
     branch_commits := fun _ _ _ _ => Ok [];
     webhook := fun _ _ => Ok tt;
     latency := fun _ => 5000%Z;
     toLocaleString := fun s => s |}.

Definition main_branch : Response (list Branch) := Ok [mkBranch "main"].

(** All is well: one repository, one branch, one new commit. *)
Definition healthy : Env :=
  platform one main_branch (Ok [commit_by (Some "ann")]) (Ok tt).

(** The process is started 1000 s after the epoch; the last check was at
    900 s; [data.json] has a second key. *)
Definition start : World :=
  {| clock := 1000000;
     data_json := Ok (<["last_checked" := JIso 900]>
                        (<["note" := JOther "keep me"]> ∅));
     commits_json := None;
     trace := [];
     console := [];
     unhandled := [];
     isFetching := false;
     interval := false;
     pending := None |}.



(** The webhook refuses the message. *)
Definition hook_down : Env :=
  platform one main_branch (Ok [commit_by (Some "ann")])
           (Fail "Request failed with status code 429").

(** The one new commit was made under an e-mail address that belongs to no
    account of the platform: its [author] is null. *)
Definition unlinked_author : Env :=
  platform one main_branch (Ok [commit_by None]) (Ok tt).

(** After a first cycle that went well, and after one tick of the timer. *)
Definition polling : World := snd (startPolling cfg healthy 2 start).
Definition running : World := snd (begin_cycle polling).

(** The timer is installed, no cycle runs, and [data.json] has been cut
    short: parsing it throws. *)
Definition unreadable : World :=
  set_data_json (Fail "Unexpected end of JSON input") polling.

(** Two repositories, each with the branch [main] and one new commit. *)
Definition two : list Repo := [repo_at "A" 950000; repo_at "B" 940000].
Definition busy : Env :=
  platform two main_branch (Ok [commit_by (Some "ann")]) (Ok tt).
End Scenario.

(** ** Further observations *)

(** [r] is older than [since]: the test [pushedAt < since] of the trim. *)
Definition older (since : jsnum) (r : Repo) : bool :=
  js_lt (Num (pushed_at r)) since.

(** The listed repository has at least one branch, as far as
    [getRepoBranches] can tell (a failed request counts as none). *)
Definition has_branches (e : Env) (repoInfo : Repo) : bool :=
  match branches_of e (owner_login repoInfo) (name repoInfo) with
  | [] => false
  | _ :: _ => true
  end.

(** The number of webhook calls among some requests. *)
Definition count_posts (rs : list Request) : nat :=
  length (List.filter is_post rs).

(** The number of branch entries of a cycle result whose commit list is not
    empty. *)
Definition nonempty_batches (result : list RepoUpdate) : nat :=
  length (List.filter (fun bc => match commits bc with
                                 | [] => false
                                 | _ :: _ => true
                                 end)
                      (flat_map branchCommits result)).

(** No request of the environments that settle the cycles of a run takes
    negative time. *)
Definition well_timed (evs : list Event) : Prop :=
  Forall (fun ev => match ev with
                    | Tick => True
                    | Settle e _ => forall r, (0 <= latency e r)%Z
                    end) evs.

(** ** The text of a date

    [ISODateString] above stands for the string the function builds by the
    second that string names and by whether its year has four digits.  Here
    is the string itself, from what the [getUTC...] methods of a valid date
    return. *)
Module Text.
Record UTCFields := mkUTCFields {
  utcFullYear : Z;      (* negative before year 0 *)
  utcMonth : nat;     (* 0 for January *)
  utcDate : nat;
  utcHours : nat;
  utcMinutes : nat;
  utcSeconds : nat
}.

(** [pad]: [n < 10 ? '0' + n : n], joined to a string by the caller. *)
Definition pad (n : nat) : string :=
  if (n <? 10)%nat then "0" +:+ pretty n else pretty n.

Definition ISODateString (d : UTCFields) : string :=
  pretty (utcFullYear d) +:+ "-" +:+
  pad (utcMonth d + 1) +:+ "-" +:+
  pad (utcDate d) +:+ "T" +:+
  pad (utcHours d) +:+ ":" +:+
  pad (utcMinutes d) +:+ ":" +:+
  pad (utcSeconds d) +:+ "Z".

(** The ranges of the fields of a valid date, the year apart. *)
Definition in_range (d : UTCFields) : Prop :=
  utcMonth d <= 11 /\ 1 <= utcDate d <= 31 /\ utcHours d <= 23 /\
  utcMinutes d <= 59 /\ utcSeconds d <= 59.
End Text.

(** Two worlds that differ at most in what the console holds. *)
Definition same_but_console (w1 w2 : World) : Prop :=
  clock w1 = clock w2 /\
  data_json w1 = data_json w2 /\
  commits_json w1 = commits_json w2 /\
  trace w1 = trace w2 /\
  unhandled w1 = unhandled w2 /\
  isFetching w1 = isFetching w2 /\
  interval w1 = interval w2 /\
  pending w1 = pending w2.

(** A computation on which the console has no influence. *)
Definition console_blind {A} (m : M A) : Prop :=
  forall w1 w2, same_but_console w1 w2 ->
    fst (m w1) = fst (m w2) /\ same_but_console (snd (m w1)) (snd (m w2)).

(** * Proofs *)

(** ** The monad *)

Lemma bind_ret_inv {A B} (m : M A) (k : A -> M B) w b w' :
  bind m k w = (Ret b, w') ->
  exists a w1, m w = (Ret a, w1) /\ k a w1 = (Ret b, w').
Proof.
  unfold bind. destruct (m w) as [[a|msg|] w1]; try discriminate.
  intros H. exists a, w1. auto.
Qed.

Lemma bind_eq_ret {A B} (m : M A) (k : A -> M B) w a w1 :
  m w = (Ret a, w1) -> bind m k w = k a w1.
Proof. unfold bind. intros ->. reflexivity. Qed.

Lemma bind_eq_throw {A B} (m : M A) (k : A -> M B) w msg w1 :
  m w = (Throw msg, w1) -> bind m k w = (Throw msg, w1).
Proof. unfold bind. intros ->. reflexivity. Qed.

Lemma bind_eq_hang {A B} (m : M A) (k : A -> M B) w w1 :
  m w = (Hang, w1) -> bind m k w = (Hang, w1).
Proof. unfold bind. intros ->. reflexivity. Qed.

(** ** Requests and log lines leave the rest of the world alone *)

(** ** Dates *)

(** What [ISODateString] prints for an instant of the years 1000 to 9999 is
    read back as that instant cut to whole seconds. *)
Lemma Date_getTime_printed ms :
  four_digit_year ms = true ->
  Date_getTime (Some (ISODateString (Num ms))) = Num (1000 * (ms / 1000)).
Proof.
  intros Hyear. unfold ISODateString. rewrite Hyear. unfold Date_getTime.
  replace (four_digit_text (ms / 1000)) with true; [reflexivity |].
  symmetry. unfold four_digit_year in Hyear. unfold four_digit_text.
  assert (-30610224000 <= ms / 1000)%Z
    by (apply Z.div_le_lower_bound; lia).
  assert (ms / 1000 < 253402300800)%Z
    by (apply Z.div_lt_upper_bound; lia).
  lia.
Qed.

(** ** The request log *)

Lemma requests_set_trace new w :
  requests (set_trace (trace w ++ new) w) = requests w ++ map snd new.
Proof. unfold requests. simpl. apply map_app. Qed.

Lemma requests_after_page_request e org pages w :
  requests (after_page_request e org pages w) =
  requests w ++ [GetOrgRepos org pages].
Proof. unfold requests, after_page_request. simpl. apply map_app. Qed.

Lemma net_step_requests e w w' :
  net_step e w w' -> exists more, requests w' = requests w ++ more.
Proof.
  intros [[new [Hreq _]] _]. exists (map snd new).
  unfold requests. rewrite Hreq. apply map_app.
Qed.

(** Closes an equation between two request logs that differ by requests
    appended to the trace. *)
Ltac log_eq :=
  unfold requests; simpl; rewrite ?map_app; simpl;
  rewrite <- ?app_assoc; reflexivity.

Section Frame.
Context (e : Env).

Lemma within_app t t' new1 new2 :
  within e t t' (new1 ++ new2) <-> within e t t' new1 /\ within e t t' new2.
Proof. apply Forall_app. Qed.

Lemma within_wider t1 t1' t2 t2' new :
  (t2 <= t1)%Z -> (t1' <= t2')%Z -> within e t1 t1' new -> within e t2 t2' new.
Proof.
  intros Hlo Hhi H. eapply Forall_impl; [exact H |].
  simpl. intros tr [? ?]. lia.
Qed.

Lemma merge_by_time_perm a b : merge_by_time a b ≡ₚ a ++ b.
Proof.
  revert b. induction a as [|x a IHa]; intros b; [reflexivity |].
  induction b as [|y b IHb].
  - simpl. rewrite app_nil_r. reflexivity.
  - cbn [merge_by_time]. destruct (fst x <=? fst y)%Z.
    + simpl. constructor. apply IHa.
    + change ((fix merge_into (b0 : list (Z * Request)) : list (Z * Request) :=
                 match b0 with
                 | [] => x :: a
                 | y0 :: b' =>
                   if (fst x <=? fst y0)%Z then x :: merge_by_time a b0
                   else y0 :: merge_into b'
                 end) b) with (merge_by_time (x :: a) b).
      rewrite IHb. apply Permutation_middle.
Qed.

Lemma within_merge t t' new1 new2 :
  within e t t' new1 -> within e t t' new2 ->
  within e t t' (merge_by_time new1 new2).
Proof.
  intros H1 H2. unfold within. rewrite merge_by_time_perm.
  apply Forall_app. split; assumption.
Qed.

Lemma net_step_refl w : net_step e w w.
Proof.
  repeat split; try reflexivity.
  exists []. rewrite app_nil_r. split; [reflexivity |].
  intros _. split; [lia | constructor].
Qed.

Lemma net_step_trans w1 w2 w3 :
  net_step e w1 w2 -> net_step e w2 w3 -> net_step e w1 w3.
Proof.
  intros [[n1 [R1 C1]] (D1 & J1 & U1 & F1 & I1 & P1)]
         [[n2 [R2 C2]] (D2 & J2 & U2 & F2 & I2 & P2)].
  repeat split; try congruence.
  exists (n1 ++ n2). rewrite R2, R1, app_assoc.
  split; [reflexivity |]. intros Hlat.
  destruct (C1 Hlat) as [Hc1 Hw1]. destruct (C2 Hlat) as [Hc2 Hw2].
  split; [lia |]. apply within_app. split.
  - eapply within_wider; [| | exact Hw1]; lia.
  - eapply within_wider; [| | exact Hw2]; lia.
Qed.

Lemma networked_ret {A} (a : A) : networked e (ret a).
Proof. intros w. apply net_step_refl. Qed.

Lemma networked_throw {A} msg : networked e (@throw A msg).
Proof. intros w. apply net_step_refl. Qed.

Lemma networked_hang {A} : networked e (@hang A).
Proof. intros w. apply net_step_refl. Qed.

Lemma networked_bind {A B} (m : M A) (k : A -> M B) :
  networked e m -> (forall a, networked e (k a)) -> networked e (bind m k).
Proof.
  intros Hm Hk w. unfold bind. specialize (Hm w).
  destruct (m w) as [[a|msg|] w1]; simpl in *; try assumption.
  eapply net_step_trans; [eassumption | apply Hk].
Qed.

Lemma networked_try_catch {A} (m : M A) (h : string -> M A) :
  networked e m -> (forall msg, networked e (h msg)) ->
  networked e (try_catch m h).
Proof.
  intros Hm Hh w. unfold try_catch. specialize (Hm w).
  destruct (m w) as [[a|msg|] w1]; simpl in *; try assumption.
  eapply net_step_trans; [eassumption | apply Hh].
Qed.

Lemma networked_console_log s : networked e (console_log s).
Proof. intros w. simpl. apply (net_step_refl w). Qed.

Lemma networked_console_error s : networked e (console_error s).
Proof. intros w. simpl. apply (net_step_refl w). Qed.

Lemma networked_await_request {A} r (answer : Response A) :
  networked e (await_request e r answer).
Proof.
  intros w. unfold await_request.
  assert (net_step e w (set_clock (clock w + latency e r)
                          (set_trace (trace w ++ [(clock w, r)]) w))) as H.
  { repeat split; try reflexivity.
    exists [(clock w, r)]. split; [reflexivity |]. intros Hlat.
    specialize (Hlat r). simpl. split; [lia |].
    constructor; [simpl; lia | constructor]. }
  destruct answer; exact H.
Qed.

Lemma networked_if {A} (b : bool) (m1 m2 : M A) :
  networked e m1 -> networked e m2 -> networked e (if b then m1 else m2).
Proof. destruct b; auto. Qed.

(** The world [Promise.all] leaves, from the world [w] of the call, the
    world [w1] the first callback leaves and the world [w2] the others leave
    when they follow it in the log. *)
Lemma net_step_joined w w1 w2 :
  net_step e w w1 -> net_step e (set_clock (clock w) w1) w2 ->
  net_step e w
    (set_clock (Z.max (clock w1) (clock w2))
       (set_trace (trace w ++ merge_by_time
                                (drop (length (trace w)) (trace w1))
                                (drop (length (trace w1)) (trace w2))) w2)).
Proof.
  intros [[n1 [R1 C1]] (D1 & J1 & U1 & F1 & I1 & P1)]
         [[n2 [R2 C2]] (D2 & J2 & U2 & F2 & I2 & P2)].
  simpl in *.
  assert (drop (length (trace w)) (trace w1) = n1) as E1
    by (rewrite R1; apply drop_app_length).
  assert (drop (length (trace w1)) (trace w2) = n2) as E2
    by (rewrite R2; apply drop_app_length).
  rewrite E1, E2.
  repeat split; simpl; try congruence.
  exists (merge_by_time n1 n2). split; [reflexivity |]. intros Hlat.
  destruct (C1 Hlat) as [Hc1 Hw1]. destruct (C2 Hlat) as [Hc2 Hw2].
  split; [lia |]. apply within_merge.
  - eapply within_wider; [| | exact Hw1]; lia.
  - eapply within_wider; [| | exact Hw2]; lia.
Qed.

Lemma networked_promise_all_map {A B} (f : A -> M B) l :
  (forall a, networked e (f a)) -> networked e (promise_all_map f l).
Proof.
  intros Hf. induction l as [|x l IH]; intros w; cbn [promise_all_map].
  - apply net_step_refl.
  - pose proof (Hf x w) as H1.
    destruct (f x w) as [first w1]. simpl in H1.
    pose proof (IH (set_clock (clock w) w1)) as H2.
    destruct (promise_all_map f l (set_clock (clock w) w1)) as [others w2].
    simpl in H2.
    pose proof (net_step_joined w w1 w2 H1 H2) as H.
    destruct first as [y|msg|], others as [ys|msg'|]; exact H.
Qed.

Lemma networked_getOrgRepos_loop fuel org since repoList pages :
  networked e (getOrgRepos_loop fuel e org since repoList pages).
Proof.
  revert repoList pages.
  induction fuel as [|fuel IH]; intros repoList pages; simpl.
  - apply networked_hang.
  - apply networked_bind; [apply networked_console_log | intros _].
    apply networked_bind; [apply networked_await_request | intros page].
    destruct (length page =? 0)%nat; [apply networked_ret |].
    destruct (trim since page) as [page' pushedAt].
    destruct (js_lt pushedAt since); [apply networked_ret | apply IH].
Qed.

Lemma networked_getRepoBranches owner repo :
  networked e (getRepoBranches e owner repo).
Proof.
  apply networked_try_catch; [apply networked_await_request | intros msg].
  apply networked_bind; [apply networked_console_error | intros _].
  apply networked_ret.
Qed.

Context (cfg : Config).

Lemma networked_sendToDiscord repoName branchName commitLogs :
  networked e (sendToDiscord cfg e repoName branchName commitLogs).
Proof.
  unfold sendToDiscord.
  destruct (message_of e repoName branchName commitLogs) as [message|];
    [| apply networked_throw].
  apply networked_try_catch; [| intros msg; apply networked_console_error].
  apply networked_bind; [apply networked_await_request | intros _].
  apply networked_console_log.
Qed.

Lemma networked_getBranchCommits owner repo branch since :
  networked e (getBranchCommits cfg e owner repo branch since).
Proof.
  apply networked_try_catch.
  - apply networked_bind; [apply networked_await_request | intros cs].
    apply networked_bind; [| intros _; apply networked_ret].
    apply networked_if; [apply networked_sendToDiscord | apply networked_ret].
  - intros msg.
    apply networked_bind; [apply networked_console_error | intros _].
    apply networked_ret.
Qed.

Lemma networked_branchUpdate since repoInfo b :
  networked e (branchUpdate cfg e since repoInfo b).
Proof.
  apply networked_bind; [apply networked_getBranchCommits | intros cs].
  apply networked_bind; [| intros _; apply networked_ret].
  apply networked_if; apply networked_console_log.
Qed.

Lemma networked_repoUpdate since repoInfo :
  networked e (repoUpdate cfg e since repoInfo).
Proof.
  apply networked_bind; [apply networked_getRepoBranches | intros bs].
  apply networked_bind; [apply networked_console_log | intros _].
  destruct (length bs =? 0)%nat.
  - apply networked_bind; [apply networked_console_log | intros _].
    apply networked_ret.
  - apply networked_bind; [| intros bc; apply networked_ret].
    apply networked_promise_all_map. intros b. apply networked_branchUpdate.
Qed.
End Frame.

(** ** The backward trim *)

Lemma pushedAt_of_last l r :
  pushedAt_of (l ++ [r]) (Z.of_nat (length l)) = Num (pushed_at r).
Proof.
  unfold pushedAt_of. rewrite Nat2Z.id.
  rewrite lookup_app_r by lia. rewrite Nat.sub_diag. reflexivity.
Qed.

(** One entry at the end of the page: it is popped when older than [since],
    and the trim goes on with the entries before it. *)
Lemma trim_snoc since l r :
  trim since (l ++ [r]) =
  if js_lt (Num (pushed_at r)) since then
    match l with
    | [] => ([], Num (pushed_at r))
    | _ :: _ => trim since l
    end
  else (l ++ [r], Num (pushed_at r)).
Proof.
  unfold trim. rewrite length_app. simpl length.
  replace (Z.of_nat (length l + 1) - 1)%Z with (Z.of_nat (length l)) by lia.
  rewrite pushedAt_of_last.
  replace (length l + 1)%nat with (S (length l)) by lia.
  cbn [trim_loop].
  destruct (js_lt (Num (pushed_at r)) since); [| reflexivity].
  rewrite removelast_last.
  destruct l as [|x l]; [reflexivity |].
  destruct (Z.ltb_spec (Z.of_nat (length (x :: l)) - 1) 0) as [H|H];
    [simpl in H; lia | reflexivity].
Qed.

Lemma recent_snoc W l r :
  recent W (l ++ [r]) =
  if (pushed_at r <? W)%Z then recent W l else recent W l ++ [r].
Proof.
  unfold recent. rewrite filter_app.
  destruct (Z.ltb_spec (pushed_at r) W) as [H|H].
  - rewrite filter_cons_False by lia. rewrite filter_nil, app_nil_r. reflexivity.
  - rewrite filter_cons_True by lia. reflexivity.
Qed.

Lemma recent_all W l :
  Forall (fun r => (W <= pushed_at r)%Z) l -> recent W l = l.
Proof.
  induction 1 as [|r l Hr _ IH]; [reflexivity |].
  unfold recent in *. rewrite filter_cons_True by assumption. congruence.
Qed.

Lemma recent_none W l :
  Forall (fun r => (pushed_at r < W)%Z) l -> recent W l = [].
Proof.
  induction 1 as [|r l Hr _ IH]; [reflexivity |].
  unfold recent in *. rewrite filter_cons_False by lia. assumption.
Qed.

Lemma recent_app W l1 l2 : recent W (l1 ++ l2) = recent W l1 ++ recent W l2.
Proof. apply filter_app. Qed.

Lemma recent_nil_inv W l :
  recent W l = [] -> Forall (fun r => (pushed_at r < W)%Z) l.
Proof.
  induction l as [|r l IH]; intros H; [constructor |].
  unfold recent in *.
  destruct (decide (W <= pushed_at r)%Z) as [Hr|Hr].
  - rewrite filter_cons_True in H by assumption. discriminate.
  - rewrite filter_cons_False in H by assumption.
    constructor; [lia | auto].
Qed.

(** ** Descending lists *)

Lemma descending_app l1 l2 :
  descending (l1 ++ l2) <->
  descending l1 /\ descending l2 /\
  Forall (fun x => Forall (fun y => (pushed_at y <= pushed_at x)%Z) l2) l1.
Proof.
  induction l1 as [|x l1 IH]; simpl.
  - intuition constructor.
  - rewrite Forall_app, IH, Forall_cons. tauto.
Qed.

Lemma descending_take n R : descending R -> descending (take n R).
Proof.
  intros H. rewrite <- (take_drop n R) in H.
  apply descending_app in H. tauto.
Qed.

Lemma descending_drop n R : descending R -> descending (drop n R).
Proof.
  intros H. rewrite <- (take_drop n R) in H.
  apply descending_app in H. tauto.
Qed.

(** In a descending list, once the first entry is older than [W] all are. *)
Lemma descending_head_old W r R :
  descending (r :: R) -> (pushed_at r < W)%Z ->
  Forall (fun r' => (pushed_at r' < W)%Z) (r :: R).
Proof.
  intros [Hle _] Hr. constructor; [assumption |].
  eapply Forall_impl; [exact Hle |]. simpl. intros; lia.
Qed.

(** On a descending page the trim keeps exactly the entries at or after the
    watermark, and the final [pushedAt] is older than the watermark exactly
    when nothing is kept. *)
Lemma trim_descending W page :
  descending page -> page <> [] ->
  exists t, trim (Num W) page = (recent W page, Num t) /\
            ((t <? W)%Z = true <-> recent W page = []).
Proof.
  induction page as [|r l IH] using rev_ind; intros Hd Hne; [congruence |].
  rewrite trim_snoc, recent_snoc. simpl js_lt.
  apply descending_app in Hd as (Hl & _ & Hle).
  destruct (Z.ltb_spec (pushed_at r) W) as [Hr|Hr].
  - destruct l as [|x l].
    + exists (pushed_at r). split; [reflexivity |].
      split; [reflexivity | intros _; apply Z.ltb_lt; assumption].
    + apply IH; [assumption | discriminate].
  - exists (pushed_at r). split.
    + rewrite recent_all; [reflexivity |].
      eapply Forall_impl; [exact Hle |]. simpl. intros x Hx.
      apply Forall_cons in Hx as [Hx _]. lia.
    + split; [intros H; apply Z.ltb_lt in H; lia |].
      intros H. destruct (recent W l); discriminate.
Qed.

(** A page whose entries all equal the watermark is left whole. *)
Lemma trim_all_equal W page :
  page <> [] -> Forall (fun r => pushed_at r = W) page ->
  trim (Num W) page = (page, Num W).
Proof.
  destruct page as [|r l] using rev_ind; intros Hne Hall; [congruence |].
  apply Forall_app in Hall as [_ Hr]. apply Forall_cons in Hr as [Hr _].
  rewrite trim_snoc. simpl js_lt. rewrite Hr, Z.ltb_irrefl. reflexivity.
Qed.

(** ** The pagination loop *)

Section Lister.
Context (e : Env) (org : string).

(** One iteration of the outer loop, given the page the platform returns. *)
Lemma getOrgRepos_loop_step fuel since repoList pages page w :
  org_repos e org pages = Ok page ->
  getOrgRepos_loop (S fuel) e org since repoList pages w =
  let w1 := after_page_request e org pages w in
  if (length page =? 0)%nat then (Ret repoList, w1)
  else
    let '(page', pushedAt) := trim since page in
    if js_lt pushedAt since then (Ret (repoList ++ page'), w1)
    else getOrgRepos_loop fuel e org since (repoList ++ page') (S pages) w1.
Proof.
  intros Hpage. cbn [getOrgRepos_loop]. unfold bind at 1. cbn [console_log].
  unfold bind at 1. unfold await_request at 1. rewrite Hpage.
  fold (after_page_request e org pages w). cbv zeta.
  destruct (length page =? 0)%nat; [reflexivity |].
  destruct (trim since page) as [page' pushedAt].
  destruct (js_lt pushedAt since); reflexivity.
Qed.

(** The request of the current page is the next one to go out, whatever
    the platform answers. *)
Lemma getOrgRepos_loop_requests fuel since repoList pages w :
  exists more,
    requests (snd (getOrgRepos_loop (S fuel) e org since repoList pages w)) =
    requests w ++ GetOrgRepos org pages :: more.
Proof.
  cbn [getOrgRepos_loop]. unfold bind at 1. cbn [console_log].
  unfold bind at 1. unfold await_request at 1.
  fold (after_page_request e org pages w).
  destruct (org_repos e org pages) as [page|msg];
    [| exists []; apply requests_after_page_request].
  destruct (length page =? 0)%nat;
    [exists []; apply requests_after_page_request |].
  destruct (trim since page) as [page' pushedAt].
  destruct (js_lt pushedAt since);
    [exists []; apply requests_after_page_request |].
  destruct (net_step_requests _ _ _
              (networked_getOrgRepos_loop e fuel org since (repoList ++ page')
                 (S pages) (after_page_request e org pages w)))
    as [more Hreq].
  exists more. rewrite Hreq, requests_after_page_request, <- app_assoc.
  reflexivity.
Qed.

(** The loop only ever appends to [repoList]: what it returns starts with
    what it was given. *)
Lemma getOrgRepos_loop_extends since fuel :
  forall repoList pages w result w',
    getOrgRepos_loop fuel e org since repoList pages w = (Ret result, w') ->
    exists rest, result = repoList ++ rest.
Proof.
  induction fuel as [|fuel IH]; intros repoList pages w result w' H;
    [discriminate |].
  destruct (org_repos e org pages) as [page|msg] eqn:Hpage.
  - rewrite (getOrgRepos_loop_step _ _ _ _ _ _ Hpage) in H. cbv zeta in H.
    destruct (length page =? 0)%nat.
    { injection H as <- _. exists []. symmetry. apply app_nil_r. }
    destruct (trim since page) as [page' pushedAt].
    destruct (js_lt pushedAt since).
    { injection H as <- _. exists page'. reflexivity. }
    apply IH in H as [rest ->]. exists (page' ++ rest).
    symmetry. apply app_assoc.
  - cbn [getOrgRepos_loop] in H. unfold bind at 1 in H.
    cbn [console_log] in H. unfold bind at 1, await_request at 1 in H.
    rewrite Hpage in H. discriminate.
Qed.

Context (W : Z) (R : list Repo).
Hypothesis served : forall pages, org_repos e org pages = Ok (paginate R pages).
Hypothesis sorted : descending R.

Lemma getOrgRepos_loop_paginated fuel :
  forall pages repoList w,
    1 <= pages ->
    length (drop (per_page * (pages - 1)) R) + per_page <= per_page * fuel ->
    exists k w',
      getOrgRepos_loop fuel e org (Num W) repoList pages w =
        (Ret (repoList ++ recent W (drop (per_page * (pages - 1)) R)), w') /\
      requests w' = requests w ++ map (GetOrgRepos org) (seq pages k) /\
      (forall q, pages <= q -> S q < pages + k ->
                 recent W (paginate R q) <> []).
Proof.
  induction fuel as [|fuel IH]; intros pages repoList w Hp Hlen.
  { unfold per_page in Hlen. lia. }
  rewrite (getOrgRepos_loop_step _ _ _ _ _ _ (served pages)). cbv zeta.
  set (w1 := after_page_request e org pages w).
  assert (requests w1 = requests w ++ [GetOrgRepos org pages]) as Hw1
    by apply requests_after_page_request.
  unfold paginate at 1 2.
  set (rest := drop (per_page * (pages - 1)) R) in *.
  assert (descending rest) as Hrest by (apply descending_drop, sorted).
  destruct (Nat.eqb_spec (length (take per_page rest)) 0) as [Hempty|Hnonempty].
  - (* the page is empty: the list is exhausted *)
    assert (rest = []) as ->.
    { destruct rest; [reflexivity | discriminate]. }
    exists 1, w1. simpl recent. rewrite app_nil_r.
    split; [reflexivity | split; [assumption |]].
    intros q ? ?. lia.
  - assert (take per_page rest <> []) as Hne.
    { intros H. rewrite H in Hnonempty. simpl in Hnonempty. lia. }
    destruct (trim_descending W (take per_page rest)) as (t & Htrim & Ht);
      [apply descending_take, Hrest | exact Hne |].
    rewrite Htrim. simpl js_lt.
    destruct (t <? W)%Z eqn:Hcmp.
    + (* everything on the page is older: stop *)
      assert (recent W (take per_page rest) = []) as Hnone by (apply Ht; reflexivity).
      assert (recent W rest = []) as Hrest_none.
      { destruct rest as [|r rest']; [reflexivity |].
        apply recent_none. apply descending_head_old; [assumption |].
        apply recent_nil_inv in Hnone. simpl in Hnone.
        apply Forall_cons in Hnone as [Hr _]. exact Hr. }
      exists 1, w1. rewrite Hnone, Hrest_none.
      split; [reflexivity | split; [assumption |]].
      intros q ? ?. lia.
    + (* something is kept: go on with the next page *)
      assert (recent W (take per_page rest) <> []) as Hsome.
      { intros H. apply Ht in H. discriminate. }
      assert (drop (per_page * (S pages - 1)) R = drop per_page rest) as Hnext.
      { unfold rest. rewrite drop_drop. f_equal. unfold per_page. lia. }
      destruct (IH (S pages) (repoList ++ recent W (take per_page rest)) w1)
        as (k & w' & Hrun & Hreq & Hbefore).
      * lia.
      * rewrite Hnext, length_drop.
        assert (length rest <> 0).
        { intros H0. destruct rest; [apply Hne; reflexivity | discriminate]. }
        unfold per_page in *. lia.
      * exists (S k), w'. rewrite Hrun, Hnext. split; [| split].
        -- rewrite <- app_assoc, <- recent_app, take_drop. reflexivity.
        -- rewrite Hreq, Hw1, <- app_assoc. reflexivity.
        -- intros q Hq1 Hq2. destruct (decide (q = pages)) as [->|Hneq].
           ++ unfold paginate. exact Hsome.
           ++ apply Hbefore; lia.
Qed.
End Lister.

(** ** Branches, commits and the notifier *)

Section Units.
Context (cfg : Config) (e : Env).

Lemma getRepoBranches_spec owner repo w :
  exists w',
    getRepoBranches e owner repo w = (Ret (branches_of e owner repo), w') /\
    requests w' = requests w ++ [GetRepoBranches owner repo].
Proof.
  unfold getRepoBranches, try_catch, await_request, branches_of.
  destruct (repo_branches e owner repo);
    eexists; (split; [reflexivity | log_eq]).
Qed.

(** [sendToDiscord] posts once when the message can be built, and its
    only failure is the failure to build it. *)
Lemma sendToDiscord_spec repoName branchName commitLogs w :
  match message_of e repoName branchName commitLogs with
  | Some message =>
    exists w', sendToDiscord cfg e repoName branchName commitLogs w = (Ret tt, w') /\
               requests w' = requests w ++ [PostWebhook (discordWebhook cfg) message]
  | None =>
    exists msg, sendToDiscord cfg e repoName branchName commitLogs w = (Throw msg, w)
  end.
Proof.
  unfold sendToDiscord.
  destruct (message_of e repoName branchName commitLogs) as [message|].
  - unfold try_catch, bind, await_request.
    destruct (webhook e (discordWebhook cfg) message);
      eexists; (split; [reflexivity | log_eq]).
  - eexists. reflexivity.
Qed.

Lemma getBranchCommits_spec owner repo branch since w :
  exists w',
    getBranchCommits cfg e owner repo branch since w =
      (Ret (commits_of e owner repo branch since), w') /\
    requests w' =
      requests w ++ GetCommits owner repo branch (ISODateString since)
                 :: posts_of cfg e owner repo branch since.
Proof.
  unfold getBranchCommits, commits_of, posts_of, fetched_commits.
  unfold try_catch at 1. unfold bind at 1. unfold await_request at 1.
  destruct (branch_commits e owner repo branch (ISODateString since))
    as [cs|msg]; [| eexists; split; [reflexivity | log_eq]].
  destruct cs as [|c cs]; [eexists; split; [reflexivity | log_eq] |].
  cbn [length Nat.ltb Nat.leb]. unfold bind at 1.
  set (w1 := set_clock _ _).
  pose proof (sendToDiscord_spec repo branch (c :: cs) w1) as Hsend.
  destruct (message_of e repo branch (c :: cs)) as [message|].
  - destruct Hsend as (w' & -> & Hreq). exists w'. split; [reflexivity |].
    rewrite Hreq. unfold w1. log_eq.
  - destruct Hsend as (msg & ->). eexists. split; [reflexivity | log_eq].
Qed.

Lemma branchUpdate_spec since repoInfo b w :
  exists w',
    branchUpdate cfg e since repoInfo b w =
      (Ret (branch_result e since repoInfo b), w') /\
    requests w' = requests w ++ branch_requests cfg e since repoInfo b.
Proof.
  unfold branchUpdate. unfold bind at 1.
  destruct (getBranchCommits_spec (owner_login repoInfo) (name repoInfo)
              (branch_name b) since w) as (w1 & -> & Hreq).
  unfold bind.
  destruct (length _ =? 0)%nat; eexists; (split; [reflexivity | exact Hreq]).
Qed.

Lemma requests_drop w w' :
  drop (length (trace w)) (requests w') =
  map snd (drop (length (trace w)) (trace w')).
Proof. unfold requests. apply skipn_map. Qed.

Lemma requests_joined w w1 w2 own fan t :
  requests w1 = requests w ++ own ->
  requests w2 = requests w1 ++ fan ->
  exists both,
    requests (set_clock t
                (set_trace (trace w ++ merge_by_time
                                         (drop (length (trace w)) (trace w1))
                                         (drop (length (trace w1)) (trace w2)))
                   w2)) = requests w ++ both /\
    both ≡ₚ own ++ fan.
Proof.
  intros H1 H2.
  exists (map snd (merge_by_time (drop (length (trace w)) (trace w1))
                                 (drop (length (trace w1)) (trace w2)))).
  split; [unfold requests; simpl; apply map_app |].
  rewrite merge_by_time_perm, map_app, <- !requests_drop.
  rewrite H1 at 1. rewrite H2.
  replace (length (trace w)) with (length (requests w))
    by (unfold requests; apply length_map).
  replace (length (trace w1)) with (length (requests w1))
    by (unfold requests; apply length_map).
  rewrite !drop_app_length. reflexivity.
Qed.

(** Every call of the map returns, so the map returns the list of the
    results; the calls run side by side, so the log holds the requests of
    all of them, interleaved by the time they went out. *)
Lemma promise_all_map_spec {A B} (f : A -> M B) (g : A -> B)
    (rq : A -> list Request) :
  (forall a w, exists w' own, f a w = (Ret (g a), w') /\
                              requests w' = requests w ++ own /\
                              own ≡ₚ rq a) ->
  forall l w, exists w' fan, promise_all_map f l w = (Ret (map g l), w') /\
                             requests w' = requests w ++ fan /\
                             fan ≡ₚ flat_map rq l.
Proof.
  intros Hf. induction l as [|x l IH]; intros w; cbn [promise_all_map].
  - exists w, []. split; [reflexivity |]. rewrite app_nil_r.
    split; reflexivity.
  - destruct (Hf x w) as (w1 & own & -> & Hreq1 & Hown).
    destruct (IH (set_clock (clock w) w1)) as (w2 & fan & -> & Hreq2 & Hfan).
    change (requests (set_clock (clock w) w1)) with (requests w1) in Hreq2.
    destruct (requests_joined w w1 w2 own fan
                (Z.max (clock w1) (clock w2)) Hreq1 Hreq2)
      as (both & Hreq & Hboth).
    eexists. exists both. split; [reflexivity |].
    split; [exact Hreq |].
    rewrite Hboth. simpl. rewrite Hown, Hfan. reflexivity.
Qed.

Lemma repoUpdate_spec since repoInfo w :
  exists w' own,
    repoUpdate cfg e since repoInfo w =
      (Ret (repo_result e since repoInfo), w') /\
    requests w' = requests w ++ own /\
    own ≡ₚ repo_requests cfg e since repoInfo.
Proof.
  unfold repoUpdate, repo_result, repo_requests. unfold bind at 1.
  destruct (getRepoBranches_spec (owner_login repoInfo) (name repoInfo) w)
    as (w1 & -> & Hreq1).
  unfold bind at 1. cbn [console_log].
  destruct (branches_of e (owner_login repoInfo) (name repoInfo)) as [|b bs].
  - eexists. eexists. split; [reflexivity |]. split; [exact Hreq1 |].
    reflexivity.
  - cbn [length Nat.eqb]. unfold bind at 1.
    edestruct (promise_all_map_spec (branchUpdate cfg e since repoInfo)
                 (branch_result e since repoInfo)
                 (branch_requests cfg e since repoInfo))
      as (w2 & fan & -> & Hreq2 & Hfan).
    { intros a w0.
      destruct (branchUpdate_spec since repoInfo a w0) as (w0' & E & Hreq).
      exists w0', (branch_requests cfg e since repoInfo a).
      split; [exact E |]. split; [exact Hreq | reflexivity]. }
    eexists. exists (GetRepoBranches (owner_login repoInfo) (name repoInfo)
                       :: fan).
    split; [reflexivity |]. split.
    + simpl. rewrite Hreq2.
      change (requests (set_console _ w1)) with (requests w1).
      rewrite Hreq1, <- app_assoc. reflexivity.
    + constructor. exact Hfan.
Qed.

Lemma omap_id_map {A B} (f : A -> option B) (l : list A) :
  omap id (map f l) = omap f l.
Proof.
  induction l as [|x l IH]; simpl; [reflexivity |].
  unfold omap in IH. destruct (f x); [f_equal |]; exact IH.
Qed.

(** ** One cycle *)

(** The three ways [getOrgCommits] can end.  Until the listing and the
    fetches are over, only requests and log lines happen; the files are
    written at the very end, and only when nothing was thrown. *)
Lemma getOrgCommits_cases fuel org since w :
  exists w2, net_step e w w2 /\
    ((exists repos w1 c,
        getOrgRepos fuel e org since w = (Ret repos, w1) /\
        (exists fan, requests w2 = requests w1 ++ fan /\
                     fan ≡ₚ cycle_requests cfg e since repos) /\
        getOrgCommits cfg e fuel org since w =
          (Ret (cycle_result e since repos), persist_world c w2)) \/
     (exists msg,
        getOrgRepos fuel e org since w = (Throw msg, w2) /\
        getOrgCommits cfg e fuel org since w = (Throw msg, w2)) \/
     (getOrgRepos fuel e org since w = (Hang, w2) /\
      getOrgCommits cfg e fuel org since w = (Hang, w2))).
Proof.
  pose proof (networked_getOrgRepos_loop e fuel org since [] 1 w) as H1.
  fold (getOrgRepos fuel e org since) in H1.
  unfold getOrgCommits.
  destruct (getOrgRepos fuel e org since w) as [[repos|msg|] w1] eqn:E1;
    simpl in H1.
  2: { exists w1. split; [exact H1 | right; left; exists msg].
       split; [reflexivity | apply bind_eq_throw, E1]. }
  2: { exists w1. split; [exact H1 | right; right].
       split; [reflexivity | apply bind_eq_hang, E1]. }
  rewrite (bind_eq_ret _ _ _ _ _ E1).
  set (w1' := set_console (console w1 ++ [Log "Fetched repos:"]) w1).
  rewrite (bind_eq_ret (console_log "Fetched repos:") _ w1 tt w1' eq_refl).
  assert (net_step e w w1') as H1' by exact H1.
  destruct (promise_all_map_spec (repoUpdate cfg e since) (repo_result e since)
              (repo_requests cfg e since)
              (repoUpdate_spec since) repos w1')
    as (w2 & fan & E2 & Hreq2 & Hfan).
  fold (cycle_requests cfg e since repos) in Hfan.
  change (requests w1') with (requests w1) in Hreq2.
  pose proof (networked_promise_all_map e (repoUpdate cfg e since) repos
                (networked_repoUpdate e cfg since) w1') as H2.
  rewrite E2 in H2. simpl in H2.
  rewrite (bind_eq_ret _ _ _ _ _ E2).
  rewrite omap_id_map. fold (cycle_result e since repos).
  assert (net_step e w w2) as H12 by (eapply net_step_trans; eassumption).
  set (logged := if (0 <? length (emptyRepos_of _ _))%nat then _ else _).
  assert (exists w3, logged w2 = (Ret tt, w3) /\ net_step e w w3 /\
                     requests w3 = requests w2)
    as (w3 & E3 & H3 & Hreq3).
  { unfold logged. destruct (0 <? length _)%nat.
    - eexists. split; [reflexivity | split; [exact H12 | reflexivity]].
    - eexists. split; [reflexivity | split; [exact H12 | reflexivity]]. }
  rewrite <- Hreq3 in Hreq2.
  rewrite (bind_eq_ret _ _ _ _ _ E3).
  exists w3. split; [exact H3 | left].
  exists repos, w1.
  assert (forall w4, exists w5,
            detached (writeLastCheck (clock w4)) w4 = (Ret tt, w5)) as Hwrite.
  { intros w4. unfold detached, writeLastCheck.
    destruct (data_json w4); eexists; reflexivity. }
  destruct (0 <? length repos)%nat.
  - exists (Some (cycle_result e since repos)).
    split; [reflexivity | split; [exists fan; split; assumption |]].
    set (w4 := set_commits_json (Some (cycle_result e since repos)) w3).
    erewrite (bind_eq_ret _ _ w3 tt w4) by reflexivity.
    rewrite (bind_eq_ret Date_now _ w4 (clock w4) w4 eq_refl).
    destruct (Hwrite w4) as (w5 & E5).
    rewrite (bind_eq_ret _ _ _ _ _ E5).
    unfold persist_world. fold w4. rewrite E5. reflexivity.
  - exists None.
    split; [reflexivity | split; [exists fan; split; assumption |]].
    erewrite (bind_eq_ret _ _ w3 tt w3) by reflexivity.
    rewrite (bind_eq_ret Date_now _ w3 (clock w3) w3 eq_refl).
    destruct (Hwrite w3) as (w5 & E5).
    rewrite (bind_eq_ret _ _ _ _ _ E5).
    unfold persist_world. rewrite E5. reflexivity.
Qed.
End Units.

(** ** Writing the files *)

Lemma persist_world_frame c w :
  clock (persist_world c w) = clock w /\
  requests (persist_world c w) = requests w /\
  console (persist_world c w) = console w /\
  same_vars w (persist_world c w).
Proof.
  unfold persist_world, detached, writeLastCheck, same_vars.
  destruct c as [c|]; simpl; destruct (data_json w); simpl; tauto.
Qed.

Lemma persist_world_trace c w : trace (persist_world c w) = trace w.
Proof.
  unfold persist_world, detached, writeLastCheck.
  destruct c as [c|]; simpl; destruct (data_json w); reflexivity.
Qed.

Lemma persist_world_data c w :
  data_json (persist_world c w) =
  match data_json w with
  | Ok data => Ok (<["last_checked" := ISODateString (Num (clock w))]> data)
  | Fail msg => Fail msg
  end.
Proof.
  unfold persist_world, detached, writeLastCheck.
  destruct c as [c|]; simpl; destruct (data_json w) eqn:E; simpl;
    rewrite ?E; reflexivity.
Qed.

Lemma net_step_same_vars e w w' : net_step e w w' -> same_vars w w'.
Proof. unfold net_step, same_vars. tauto. Qed.

Lemma same_vars_trans w1 w2 w3 :
  same_vars w1 w2 -> same_vars w2 w3 -> same_vars w1 w3.
Proof. unfold same_vars. intuition congruence. Qed.

Section Cycle.
Context (cfg : Config) (e : Env) (fuel : nat).

Lemma getOrgCommits_same_vars org since w :
  same_vars w (snd (getOrgCommits cfg e fuel org since w)).
Proof.
  destruct (getOrgCommits_cases cfg e fuel org since w)
    as (w2 & Hnet & [(repos & w1 & c & _ & _ & ->)
                    | [(msg & _ & ->) | [_ ->]]]); simpl.
  - eapply same_vars_trans; [exact (net_step_same_vars e _ _ Hnet) |].
    apply persist_world_frame.
  - exact (net_step_same_vars e _ _ Hnet).
  - exact (net_step_same_vars e _ _ Hnet).
Qed.

(** A completed cycle: the file was readable, requests and log lines
    happened, and the files were written at the end. *)
Lemma main_ret_inv w w' :
  main cfg e fuel w = (Ret tt, w') ->
  exists data w2 c,
    data_json w = Ok data /\ net_step e w w2 /\ w' = persist_world c w2.
Proof.
  unfold main. intros H.
  apply bind_ret_inv in H as (since & w0 & Hread & H).
  apply bind_ret_inv in H as (r & w1 & Hrun & Hret).
  injection Hret as ->.
  unfold getLastCheck in Hread.
  destruct (data_json w) as [data|msg] eqn:Hdata; [| discriminate].
  simpl in Hread. injection Hread as <- <-.
  set (w0 := set_console _ w) in Hrun.
  destruct (getOrgCommits_cases cfg e fuel (org cfg)
              (Date_getTime (data !! "last_checked")) w0)
    as (w2 & Hnet & [(repos & w1' & c & _ & _ & Heq)
                    | [(msg & _ & Heq) | [_ Heq]]]);
    rewrite Heq in Hrun; try discriminate.
  injection Hrun as _ <-.
  exists data, w2, c. split; [reflexivity | split; [exact Hnet | reflexivity]].
Qed.

Lemma main_same_vars w : same_vars w (snd (main cfg e fuel w)).
Proof.
  unfold main, bind, getLastCheck.
  destruct (data_json w) as [data|msg]; [| repeat split].
  simpl. set (w0 := set_console _ w).
  pose proof (getOrgCommits_same_vars (org cfg)
                (Date_getTime (data !! "last_checked")) w0) as H.
  destruct (getOrgCommits _ _ _ _ _ w0) as [[r|msg|] w1]; exact H.
Qed.

(** ** The timer callback *)

Lemma finish_cycle_spec since w :
  match fst (getOrgCommits cfg e fuel (org cfg) since w) with
  | Hang => exists w', finish_cycle cfg e fuel since w = (Hang, w')
  | _ =>
    exists w', finish_cycle cfg e fuel since w = (Ret tt, w') /\
               isFetching w' = false /\
               interval w' = interval w /\ pending w' = pending w
  end.
Proof.
  unfold finish_cycle, try_finally, try_catch, bind.
  pose proof (getOrgCommits_same_vars (org cfg) since w) as (_ & Hi & Hp).
  destruct (getOrgCommits cfg e fuel (org cfg) since w) as [[r|msg|] w1];
    simpl in *.
  - eexists. split; [reflexivity |]. simpl. auto.
  - eexists. split; [reflexivity |]. simpl. auto.
  - eexists. reflexivity.
Qed.

Lemma timer_callback_spec w :
  (exists w', timer_callback cfg e fuel w = (Ret tt, w') /\
              interval w' = interval w /\ pending w' = pending w /\
              (isFetching w = false -> isFetching w' = false)) \/
  (exists w', timer_callback cfg e fuel w = (Hang, w')).
Proof.
  unfold timer_callback. destruct (isFetching w) eqn:Hf.
  - left. eexists. split; [reflexivity |]. simpl. repeat split. discriminate.
  - unfold try_finally, try_catch, bind. cbn [assign_isFetching console_log].
    set (w0 := set_console _ (set_isFetching true w)).
    pose proof (main_same_vars w0) as (_ & Hi & Hp).
    destruct (main cfg e fuel w0) as [[[]|msg|] w1]; simpl in *.
    + left. eexists. split; [reflexivity |]. simpl. auto.
    + left. eexists. split; [reflexivity |]. simpl. auto.
    + right. eexists. reflexivity.
Qed.

Lemma startPolling_spec w :
  match fst (main cfg e fuel (first_cycle_world w)) with
  | Ret _ =>
    exists w', startPolling cfg e fuel w = (Ret tt, w') /\
               interval w' = true /\
               isFetching w' = false /\ pending w' = pending w
  | Throw _ =>
    exists w', startPolling cfg e fuel w = (Ret tt, w') /\
               interval w' = interval w /\
               isFetching w' = false /\ pending w' = pending w
  | Hang => exists w', startPolling cfg e fuel w = (Hang, w')
  end.
Proof.
  unfold startPolling, try_catch, bind, first_cycle_world.
  cbn [assign_isFetching console_log snd].
  set (w0 := set_console _ (set_isFetching false w)).
  pose proof (main_same_vars w0) as (Hf & Hi & Hp).
  destruct (main cfg e fuel w0) as [[[]|msg|] w1]; simpl in *.
  - eexists. split; [reflexivity |]. simpl. auto.
  - eexists. split; [reflexivity |]. simpl. auto.
  - eexists. reflexivity.
Qed.
End Cycle.

(** ** Events of the process *)

Lemma begin_cycle_spec w :
  exists w', begin_cycle w = (Ret tt, w') /\
    interval w' = interval w /\
    requests w' = requests w /\
    data_json w' = data_json w /\
    match data_json w with
    | Ok _ => isFetching w' = true /\ pending w' = Some (watermark w)
    | Fail _ => isFetching w' = false /\ pending w' = pending w
    end.
Proof.
  unfold begin_cycle, bind, getLastCheck, watermark.
  cbn [assign_isFetching console_log set_console set_isFetching data_json].
  destruct (data_json w) as [data|msg] eqn:Hdata; simpl.
  - eexists. split; [reflexivity |]. simpl. auto.
  - eexists. split; [reflexivity |]. simpl. auto.
Qed.



Lemma step_settle cfg w e fuel w' :
  step cfg w (Settle e fuel) = Some w' ->
  isFetching w' = false /\ pending w' = None /\ interval w' = interval w.
Proof.
  simpl. destruct (pending w) as [since|]; [| discriminate].
  pose proof (finish_cycle_spec cfg e fuel since (set_pending None w)) as H.
  destruct (fst (getOrgCommits _ _ _ _ _ _));
    [destruct H as (w1 & -> & Hf & Hi & Hp); intros [= <-]; auto
    |destruct H as (w1 & -> & Hf & Hi & Hp); intros [= <-]; auto
    |destruct H as (w1 & ->); discriminate].
Qed.

(** The callback run in one go is the tick followed by the settling of the
    cycle it started; when [data.json] cannot be read the cycle is over
    within the tick. *)
Lemma timer_callback_split cfg e fuel w :
  interval w = true -> isFetching w = false -> pending w = None ->
  match data_json w with
  | Ok _ =>
    fst (timer_callback cfg e fuel w) <> Hang ->
    steps cfg w [Tick; Settle e fuel] = Some (snd (timer_callback cfg e fuel w))
  | Fail _ =>
    step cfg w Tick = Some (snd (timer_callback cfg e fuel w))
  end.
Proof.
  destruct w as [c d cj rq co un f i p]. simpl. intros -> -> ->.
  unfold timer_callback, begin_cycle, finish_cycle, main, getLastCheck,
    try_finally, try_catch, bind, on_fetch_error; simpl.
  destruct d as [data|msg]; simpl; [| reflexivity].
  destruct (getOrgCommits cfg e fuel (org cfg) _ _) as [[r|msg|] w1];
    simpl; intros H; try reflexivity.
  congruence.
Qed.

(** * The claims *)

(** C1, in the form the code satisfies.  The watermark a completed cycle
    persists is the wall-clock instant read when the watermark is written,
    cut to whole seconds (for a clock in the years 1000 to 9999, whose
    printed date is read back); it is not the instant at which the cycle
    started.  When no request takes negative time, the write comes at or
    after the start of the cycle and after the answer to every request the
    cycle made, however the requests overlapped; and when the clock was not
    behind the watermark read at the start, the new watermark is at or after
    that watermark cut to whole seconds, hence at or after the watermark
    itself when that one is a whole second. *)
Theorem C1_watermark_is_clock_at_write cfg e fuel w w' :
  main cfg e fuel w = (Ret tt, w') ->
  four_digit_year (clock w') = true ->
  watermark w' = Num (1000 * (clock w' / 1000)) /\
  ((forall r, (0 <= latency e r)%Z) ->
   (clock w <= clock w')%Z /\
   (exists new, trace w' = trace w ++ new /\
                within e (clock w) (clock w') new) /\
   forall s, watermark w = Num s -> (s <= clock w)%Z ->
             (1000 * (s / 1000) <= 1000 * (clock w' / 1000))%Z /\
             ((s mod 1000 = 0)%Z -> (s <= 1000 * (clock w' / 1000))%Z)).
Proof.
  intros Hmain Hyear.
  destruct (main_ret_inv cfg e fuel w w' Hmain)
    as (data & w2 & c & Hdata & Hnet & ->).
  destruct Hnet as [(new & Htrace & Htimes) (Hdata2 & _)].
  destruct (persist_world_frame c w2) as (Hc & _).
  rewrite Hc in *. split.
  - unfold watermark. rewrite persist_world_data, Hdata2, Hdata.
    rewrite lookup_insert_eq. apply Date_getTime_printed, Hyear.
  - intros Hlat. destruct (Htimes Hlat) as [Hclock Hwithin].
    split; [exact Hclock |]. split.
    + exists new. rewrite persist_world_trace. split; assumption.
    + intros s _ Hle.
      assert (1000 * (s / 1000) <= 1000 * (clock w2 / 1000))%Z as Hfloor.
      { apply Z.mul_le_mono_nonneg_l; [lia |].
        apply Z.div_le_mono; lia. }
      split; [exact Hfloor |].
      intros Hmod. pose proof (Z.div_mod s 1000). lia.
Qed.

Lemma C1_witness :
  main Scenario.cfg Scenario.healthy 2 Scenario.start =
    (Ret tt, snd (main Scenario.cfg Scenario.healthy 2 Scenario.start)) /\
  four_digit_year
    (clock (snd (main Scenario.cfg Scenario.healthy 2 Scenario.start))) =
    true /\
  watermark (snd (main Scenario.cfg Scenario.healthy 2 Scenario.start)) =
    Num 1025000 /\
  main Scenario.cfg Scenario.busy 2 Scenario.start =
    (Ret tt, snd (main Scenario.cfg Scenario.busy 2 Scenario.start)) /\
  four_digit_year
    (clock (snd (main Scenario.cfg Scenario.busy 2 Scenario.start))) =
    true /\
  watermark (snd (main Scenario.cfg Scenario.busy 2 Scenario.start)) =
    Num 1025000.
Proof.
  assert (main Scenario.cfg Scenario.healthy 2 Scenario.start =
            (Ret tt, snd (main Scenario.cfg Scenario.healthy 2 Scenario.start)))
    as Hmain by (vm_compute; reflexivity).
  assert (four_digit_year
            (clock (snd (main Scenario.cfg Scenario.healthy 2 Scenario.start)))
          = true) as Hyear by (vm_compute; reflexivity).
  assert (main Scenario.cfg Scenario.busy 2 Scenario.start =
            (Ret tt, snd (main Scenario.cfg Scenario.busy 2 Scenario.start)))
    as Hmain2 by (vm_compute; reflexivity).
  assert (four_digit_year
            (clock (snd (main Scenario.cfg Scenario.busy 2 Scenario.start)))
          = true) as Hyear2 by (vm_compute; reflexivity).
  split; [exact Hmain | split; [exact Hyear | split]].
  - destruct (C1_watermark_is_clock_at_write Scenario.cfg Scenario.healthy 2
                Scenario.start _ Hmain Hyear) as [Hmark _].
    rewrite Hmark. vm_compute. reflexivity.
  - split; [exact Hmain2 | split; [exact Hyear2 |]].
    destruct (C1_watermark_is_clock_at_write Scenario.cfg Scenario.busy 2
                Scenario.start _ Hmain2 Hyear2) as [Hmark _].
    rewrite Hmark. vm_compute. reflexivity.
Defined.

(** C1 as stated fails: the cycle starts at 1000 s, its five requests take
    five seconds each, and the watermark it persists is 1025 s, the time of
    the write, not the time of the start. *)
Lemma C1_counterexample :
  fst (main Scenario.cfg Scenario.healthy 2 Scenario.start) = Ret tt /\
  clock Scenario.start = 1000000%Z /\
  watermark (snd (main Scenario.cfg Scenario.healthy 2 Scenario.start)) =
    Num 1025000 /\
  watermark (snd (main Scenario.cfg Scenario.healthy 2 Scenario.start)) <>
    Num (clock Scenario.start).
Proof.
  split; [vm_compute; reflexivity |].
  split; [reflexivity |].
  split; [vm_compute; reflexivity |].
  vm_compute. discriminate.
Qed.

(** C2, in the form the code satisfies.  When the first page of a
    descending listing ends with entries older than the watermark, but not only such entries, the lister
    returns the page without those entries; it does request the second page
    (the last entry it kept is not older than the watermark), and no third
    one. *)
Theorem C2_trailing_old_entries e org W R keep old fuel w :
  descending R ->
  (forall pages, org_repos e org pages = Ok (paginate R pages)) ->
  paginate R 1 = keep ++ old ->
  keep <> [] -> old <> [] ->
  Forall (fun r => (W <= pushed_at r)%Z) keep ->
  Forall (fun r => (pushed_at r < W)%Z) old ->
  2 <= fuel ->
  exists w',
    getOrgRepos fuel e org (Num W) w = (Ret keep, w') /\
    requests w' = requests w ++ [GetOrgRepos org 1; GetOrgRepos org 2].
Proof.
  intros Hd Hserved Hpage Hkeep Hold Hk Ho Hfuel.
  destruct fuel as [|[|fuel]]; [lia | lia |].
  assert (recent W (keep ++ old) = keep) as Hrecent.
  { rewrite recent_app, (recent_all _ _ Hk), (recent_none _ _ Ho).
    apply app_nil_r. }
  assert (descending (keep ++ old)) as Hd1.
  { rewrite <- Hpage. apply descending_take, descending_drop, Hd. }
  unfold getOrgRepos.
  rewrite (getOrgRepos_loop_step e org _ _ _ _ _ _ (Hserved 1)). cbv zeta.
  rewrite Hpage.
  destruct (Nat.eqb_spec (length (keep ++ old)) 0) as [H0|_].
  { destruct keep; [congruence | discriminate]. }
  destruct (trim_descending W (keep ++ old) Hd1) as (t & -> & Ht).
  { destruct keep; [congruence | discriminate]. }
  rewrite Hrecent in *. simpl js_lt.
  destruct (t <? W)%Z eqn:Hcmp; [exfalso; apply Hkeep, Ht; reflexivity |].
  set (w1 := after_page_request e org 1 w).
  rewrite (getOrgRepos_loop_step e org _ _ _ _ _ _ (Hserved 2)). cbv zeta.
  set (w2 := after_page_request e org 2 w1).
  assert (requests w2 = requests w ++ [GetOrgRepos org 1; GetOrgRepos org 2])
    as Hreq.
  { unfold w2, w1. rewrite !requests_after_page_request, <- app_assoc.
    reflexivity. }
  (* the second page lies after [old] in a descending list *)
  assert (Forall (fun r => (pushed_at r < W)%Z) (paginate R 2)) as Hpage2.
  { assert (R = (keep ++ old) ++ drop per_page R) as HR.
    { rewrite <- Hpage. unfold paginate. simpl drop. symmetry. apply take_drop. }
    rewrite HR in Hd. apply descending_app in Hd as (_ & _ & Hle).
    apply Forall_app in Hle as [_ Hle].
    destruct old as [|o old]; [congruence |].
    apply Forall_cons in Hle as [Hle _]. apply Forall_cons in Ho as [Ho _].
    unfold paginate. change (per_page * (2 - 1)) with per_page.
    apply Forall_take. eapply Forall_impl; [exact Hle |].
    simpl. intros; lia. }
  destruct (Nat.eqb_spec (length (paginate R 2)) 0) as [_|Hne].
  { exists w2. split; [reflexivity | exact Hreq]. }
  destruct (trim_descending W (paginate R 2)) as (t2 & -> & Ht2).
  { apply descending_take, descending_drop, Hd. }
  { intros H. rewrite H in Hne. simpl in Hne. lia. }
  rewrite (recent_none _ _ Hpage2) in *. simpl js_lt.
  destruct (t2 <? W)%Z eqn:Hcmp2.
  - exists w2. rewrite app_nil_r. split; [reflexivity | exact Hreq].
  - destruct Ht2 as [_ Ht2]. specialize (Ht2 eq_refl). discriminate.
Qed.

Lemma C2_witness :
  exists w',
    getOrgRepos 2 (Scenario.platform Scenario.ten (Ok []) (Ok []) (Ok tt))
      "marlinprotocol" (Num 35) Scenario.start =
      (Ret (take 7 Scenario.ten), w') /\
    requests w' =
      requests Scenario.start ++
      [GetOrgRepos "marlinprotocol" 1; GetOrgRepos "marlinprotocol" 2].
Proof.
  apply (C2_trailing_old_entries _ _ 35 Scenario.ten
           (take 7 Scenario.ten) (drop 7 Scenario.ten)).
  - simpl. repeat split; repeat constructor; simpl; lia.
  - intros pages. reflexivity.
  - reflexivity.
  - discriminate.
  - discriminate.
  - repeat constructor; simpl; lia.
  - repeat constructor; simpl; lia.
  - lia.
Defined.

(** C2 as stated fails: a full first page of ten descending entries whose
    last three are older than the watermark 35 is returned without those
    three, and the request for page 2 is issued all the same. *)
Lemma C2_counterexample :
  let e := Scenario.platform Scenario.ten (Ok []) (Ok []) (Ok tt) in
  let run := getOrgRepos 2 e "marlinprotocol" (Num 35) Scenario.start in
  descending Scenario.ten /\
  paginate Scenario.ten 1 = take 7 Scenario.ten ++ drop 7 Scenario.ten /\
  Forall (fun r => (pushed_at r < 35)%Z) (drop 7 Scenario.ten) /\
  Forall (fun r => (35 <= pushed_at r)%Z) (take 7 Scenario.ten) /\
  fst run = Ret (take 7 Scenario.ten) /\
  In (GetOrgRepos "marlinprotocol" 2) (requests (snd run)).
Proof.
  cbv zeta. split; [| split; [| split; [| split; [| split]]]].
  - simpl. repeat split; repeat constructor; simpl; lia.
  - reflexivity.
  - repeat constructor; simpl; lia.
  - repeat constructor; simpl; lia.
  - vm_compute. reflexivity.
  - vm_compute. right. left. reflexivity.
Qed.

(** C3. On a listing sorted descending by push time the lister returns,
    given enough fuel for the pages of the listing, exactly the entries whose
    push instant is at or after the watermark, in their order; an entry
    pushed exactly at the watermark is kept; the pages requested are
    1, ..., k, and every page before the last requested one holds an entry at
    or after the watermark, so nothing is requested beyond the first page
    that is entirely older. *)
Theorem C3_lister_returns_recent e org W R fuel w :
  descending R ->
  (forall pages, org_repos e org pages = Ok (paginate R pages)) ->
  length R + per_page <= per_page * fuel ->
  exists k w',
    getOrgRepos fuel e org (Num W) w =
      (Ret (filter (fun r => (W <= pushed_at r)%Z) R), w') /\
    (forall r, r ∈ R -> pushed_at r = W ->
               r ∈ filter (fun r => (W <= pushed_at r)%Z) R) /\
    requests w' = requests w ++ map (GetOrgRepos org) (seq 1 k) /\
    (forall q, 1 <= q -> S q < 1 + k ->
               exists r, r ∈ paginate R q /\ (W <= pushed_at r)%Z).
Proof.
  intros Hd Hserved Hfuel.
  destruct (getOrgRepos_loop_paginated e org W R Hserved Hd fuel 1 [] w)
    as (k & w' & Hrun & Hreq & Hbefore); [lia | simpl; exact Hfuel |].
  exists k, w'. split; [exact Hrun |]. split; [| split; [exact Hreq |]].
  - intros r Hin Heq. apply list_elem_of_filter. split; [lia | exact Hin].
  - intros q Hq1 Hq2. specialize (Hbefore q Hq1 Hq2).
    destruct (recent W (paginate R q)) as [|r l] eqn:Hrec; [congruence |].
    assert (r ∈ recent W (paginate R q)) as Hin by (rewrite Hrec; left).
    apply list_elem_of_filter in Hin as [Hr Hin]. exists r. auto.
Qed.

Lemma C3_witness :
  exists k w',
    getOrgRepos 2 (Scenario.platform Scenario.ten (Ok []) (Ok []) (Ok tt))
      "marlinprotocol" (Num 40) Scenario.start =
      (Ret (filter (fun r => (40 <= pushed_at r)%Z) Scenario.ten), w') /\
    (forall r, r ∈ Scenario.ten -> pushed_at r = 40%Z ->
               r ∈ filter (fun r => (40 <= pushed_at r)%Z) Scenario.ten) /\
    requests w' =
      requests Scenario.start ++ map (GetOrgRepos "marlinprotocol") (seq 1 k) /\
    (forall q, 1 <= q -> S q < 1 + k ->
               exists r, r ∈ paginate Scenario.ten q /\ (40 <= pushed_at r)%Z).
Proof.
  apply (C3_lister_returns_recent _ _ 40 Scenario.ten 2).
  - simpl. repeat split; repeat constructor; simpl; lia.
  - intros pages. reflexivity.
  - vm_compute. lia.
Defined.

(** C9. A page whose entries were all pushed exactly at the watermark loses
    nothing in the backward trim; the whole page is appended to the result;
    and the loop goes on: the request for the next page is issued.  Whatever
    the loop then returns starts with the list so far followed by the whole
    page; when the next page is empty, it returns exactly that. *)
Theorem C9_all_equal_page_continues e org W page pages repoList fuel w :
  org_repos e org pages = Ok page ->
  page <> [] ->
  Forall (fun r => pushed_at r = W) page ->
  trim (Num W) page = (page, Num W) /\
  getOrgRepos_loop (S fuel) e org (Num W) repoList pages w =
    getOrgRepos_loop fuel e org (Num W) (repoList ++ page) (S pages)
      (after_page_request e org pages w) /\
  (exists more,
     requests (snd (getOrgRepos_loop (S (S fuel)) e org (Num W)
                      repoList pages w)) =
     requests w ++ GetOrgRepos org pages :: GetOrgRepos org (S pages) :: more) /\
  (forall result w',
     getOrgRepos_loop (S fuel) e org (Num W) repoList pages w =
       (Ret result, w') ->
     exists rest, result = repoList ++ page ++ rest) /\
  (org_repos e org (S pages) = Ok [] ->
   getOrgRepos_loop (S (S fuel)) e org (Num W) repoList pages w =
     (Ret (repoList ++ page),
      after_page_request e org (S pages) (after_page_request e org pages w))).
Proof.
  intros Hpage Hne Hall.
  assert (trim (Num W) page = (page, Num W)) as Htrim
    by (apply trim_all_equal; assumption).
  assert (forall f,
            getOrgRepos_loop (S f) e org (Num W) repoList pages w =
            getOrgRepos_loop f e org (Num W) (repoList ++ page) (S pages)
              (after_page_request e org pages w)) as Hstep.
  { intros f. rewrite (getOrgRepos_loop_step e org _ _ _ _ _ _ Hpage).
    cbv zeta. rewrite Htrim. simpl js_lt. rewrite Z.ltb_irrefl.
    destruct page; [congruence | reflexivity]. }
  split; [exact Htrim | split; [apply Hstep |]].
  split; [| split].
  - rewrite Hstep.
    destruct (getOrgRepos_loop_requests e org fuel (Num W) (repoList ++ page)
                (S pages) (after_page_request e org pages w)) as (more & ->).
    exists more. rewrite requests_after_page_request, <- app_assoc.
    reflexivity.
  - intros result w' Hret. rewrite Hstep in Hret.
    apply getOrgRepos_loop_extends in Hret as [rest ->].
    exists rest. symmetry. apply app_assoc.
  - intros Hnext. rewrite Hstep.
    rewrite (getOrgRepos_loop_step e org _ _ _ _ _ _ Hnext). reflexivity.
Qed.

Lemma C9_witness :
  let page := [Scenario.repo_at "x" 40; Scenario.repo_at "y" 40] in
  let e := Scenario.platform page (Ok []) (Ok []) (Ok tt) in
  org_repos e "marlinprotocol" 1 = Ok page /\
  page <> [] /\
  Forall (fun r => pushed_at r = 40%Z) page /\
  trim (Num 40) page = (page, Num 40) /\
  (exists more,
     requests (snd (getOrgRepos_loop 2 e "marlinprotocol" (Num 40) [] 1
                      Scenario.start)) =
     requests Scenario.start ++
     GetOrgRepos "marlinprotocol" 1 :: GetOrgRepos "marlinprotocol" 2 :: more) /\
  fst (getOrgRepos_loop 2 e "marlinprotocol" (Num 40) [] 1 Scenario.start) =
    Ret page.
Proof.
  cbv zeta.
  assert (org_repos (Scenario.platform
                       [Scenario.repo_at "x" 40; Scenario.repo_at "y" 40]
                       (Ok []) (Ok []) (Ok tt)) "marlinprotocol" 1 =
          Ok [Scenario.repo_at "x" 40; Scenario.repo_at "y" 40]) as Hpage
    by reflexivity.
  assert ([Scenario.repo_at "x" 40; Scenario.repo_at "y" 40] <> []) as Hne
    by discriminate.
  assert (Forall (fun r => pushed_at r = 40%Z)
            [Scenario.repo_at "x" 40; Scenario.repo_at "y" 40]) as Hall
    by (repeat constructor).
  destruct (C9_all_equal_page_continues _ _ 40 _ 1 [] 0 Scenario.start
              Hpage Hne Hall) as (Htrim & _ & Hreq & _ & Hlast).
  split; [exact Hpage | split; [exact Hne | split; [exact Hall |]]].
  split; [exact Htrim | split; [exact Hreq |]].
  rewrite Hlast; reflexivity.
Defined.

(** C10. [writeLastCheck] keeps every other key of [data.json]: it reads the
    object, sets [last_checked], and writes the object back; nothing else in
    the world changes. *)
Theorem C10_writeLastCheck_frame (last_checked : Z) (w : World)
    (data : gmap string jval) :
  data_json w = Ok data ->
  exists data' : gmap string jval,
    writeLastCheck last_checked w = (Ret tt, set_data_json (Ok data') w) /\
    data' !! "last_checked" = Some (ISODateString (Num last_checked)) /\
    (forall key, key <> "last_checked" -> data' !! key = data !! key).
Proof.
  intros Hdata. unfold writeLastCheck. rewrite Hdata.
  eexists. split; [reflexivity |]. split.
  - apply lookup_insert_eq.
  - intros key Hkey. apply lookup_insert_ne. congruence.
Qed.

Lemma C10_witness :
  exists data' : gmap string jval,
    writeLastCheck 1025999 Scenario.start =
      (Ret tt, set_data_json (Ok data') Scenario.start) /\
    data' !! "last_checked" = Some (ISODateString (Num 1025999)) /\
    (forall key, key <> "last_checked" ->
                 data' !! key =
                 (<["last_checked" := JIso 900]>
                    (<["note" := JOther "keep me"]> ∅) : gmap string jval) !! key).
Proof.
  apply (C10_writeLastCheck_frame 1025999 Scenario.start). reflexivity.
Defined.



(** Where the notifier is called and what it posts: for a branch with no
    fetched commit nothing is posted and the branch is recorded with an empty
    list; for a branch with fetched commits one message is posted when the
    message can be built. *)
Lemma notification_per_branch cfg e owner repo branch since :
  (fetched_commits e owner repo branch since = [] ->
   posts_of cfg e owner repo branch since = [] /\
   commits_of e owner repo branch since = []) /\
  (forall message,
     fetched_commits e owner repo branch since <> [] ->
     message_of e repo branch (fetched_commits e owner repo branch since)
       = Some message ->
     posts_of cfg e owner repo branch since
       = [PostWebhook (discordWebhook cfg) message] /\
     commits_of e owner repo branch since
       = fetched_commits e owner repo branch since).
Proof.
  unfold posts_of, commits_of. split.
  - intros ->. split; reflexivity.
  - intros message Hne Hmsg.
    destruct (fetched_commits e owner repo branch since) as [|c cs];
      [congruence |].
    rewrite Hmsg. split; reflexivity.
Qed.

(** C7, at the input where the code departs from it.  The platform returns
    one commit for branch [main] of repository [A]; the commit's author has
    no account, so [commit.author] is null.  Building the message throws
    before the webhook is called; [getBranchCommits] catches the error as if
    the fetch had failed: no notification is made for a branch whose fetched
    commit list is not empty, and the branch is recorded with an empty
    list. *)
Theorem C7_unlinked_author_is_not_notified :
  let e := Scenario.unlinked_author in
  let run := getOrgCommits Scenario.cfg e 2 "marlinprotocol" (Num 900000)
               Scenario.start in
  fetched_commits e "marlinprotocol" "A" "main" (Num 900000)
    = [Scenario.commit_by None] /\
  fst run = Ret [ {| repo := "A";
                     branchCommits :=
                       [ {| branch := "main"; commits := [] |} ] |} ] /\
  Forall (fun r => is_post r = false) (requests (snd run)).
Proof.
  cbv zeta. split; [reflexivity |].
  split; [vm_compute; reflexivity |].
  vm_compute. repeat constructor.
Qed.

(** C8. For a batch of commits the notifier posts at most once.  When the
    webhook refuses the message, the failure is caught inside the notifier:
    [sendToDiscord] returns normally after that single attempt, and
    [getBranchCommits] returns the fetched commit list unchanged. *)
Theorem C8_delivery_failure_is_swallowed cfg e owner repo branch since
    commits w :
  (exists posts,
     requests (snd (sendToDiscord cfg e repo branch commits w))
       = requests w ++ posts /\
     length posts <= 1) /\
  (forall message error,
     commits <> [] ->
     message_of e repo branch commits = Some message ->
     webhook e (discordWebhook cfg) message = Fail error ->
     (exists w',
        sendToDiscord cfg e repo branch commits w = (Ret tt, w') /\
        requests w' = requests w ++ [PostWebhook (discordWebhook cfg) message]) /\
     (branch_commits e owner repo branch (ISODateString since) = Ok commits ->
      exists w',
        getBranchCommits cfg e owner repo branch since w = (Ret commits, w') /\
        requests w' =
          requests w ++ [GetCommits owner repo branch (ISODateString since);
                         PostWebhook (discordWebhook cfg) message])).
Proof.
  pose proof (sendToDiscord_spec cfg e repo branch commits w) as Hsend.
  split.
  - destruct (message_of e repo branch commits) as [message|].
    + destruct Hsend as (w' & -> & Hreq). eexists. split; [exact Hreq |].
      simpl. lia.
    + destruct Hsend as (msg & ->). exists []. simpl.
      rewrite app_nil_r. split; [reflexivity | lia].
  - intros message error Hne Hmsg Hhook. rewrite Hmsg in Hsend. split.
    + exact Hsend.
    + intros Hfetch.
      destruct (getBranchCommits_spec cfg e owner repo branch since w)
        as (w' & Hrun & Hreq).
      exists w'. revert Hrun Hreq.
      unfold commits_of, posts_of, fetched_commits. rewrite Hfetch.
      destruct commits as [|c cs]; [congruence |]. rewrite Hmsg.
      auto.
Qed.

Lemma C8_witness :
  let e := Scenario.hook_down in
  let commits := [Scenario.commit_by (Some "ann")] in
  (exists posts,
     requests (snd (sendToDiscord Scenario.cfg e "A" "main" commits
                      Scenario.start))
       = requests Scenario.start ++ posts /\
     length posts <= 1) /\
  exists message w',
    message_of e "A" "main" commits = Some message /\
    webhook e (discordWebhook Scenario.cfg) message
      = Fail "Request failed with status code 429" /\
    getBranchCommits Scenario.cfg e "marlinprotocol" "A" "main" (Num 900000)
      Scenario.start = (Ret commits, w') /\
    requests w' =
      requests Scenario.start ++
      [GetCommits "marlinprotocol" "A" "main" (ISODateString (Num 900000));
       PostWebhook (discordWebhook Scenario.cfg) message].
Proof.
  cbv zeta.
  destruct (C8_delivery_failure_is_swallowed Scenario.cfg Scenario.hook_down
              "marlinprotocol" "A" "main" (Num 900000)
              [Scenario.commit_by (Some "ann")] Scenario.start) as [H1 H2].
  split; [exact H1 |].
  destruct (message_of Scenario.hook_down "A" "main"
              [Scenario.commit_by (Some "ann")]) as [message|] eqn:Hmsg;
    [| vm_compute in Hmsg; discriminate].
  destruct (H2 message "Request failed with status code 429")
    as [_ Hget]; [discriminate | reflexivity | reflexivity |].
  destruct (Hget eq_refl) as (w' & Hrun & Hreq).
  exists message, w'. repeat split; assumption.
Defined.

(** After a settled cycle the next tick of an installed timer begins a new
    cycle. *)
Lemma tick_after_settle cfg w e fuel w' :
  interval w = true ->
  step cfg w (Settle e fuel) = Some w' ->
  step cfg w' Tick = Some (snd (begin_cycle w')).
Proof.
  intros Hi Hstep. apply step_settle in Hstep as (Hf & _ & Hi').
  simpl. rewrite Hi', Hi, Hf. reflexivity.
Qed.

(** A tick that finds the flag clear and [data.json] unreadable: the error
    is caught within the tick, the flag is cleared again, and the next tick
    begins a new cycle. *)
Lemma tick_unreadable cfg w msg :
  interval w = true -> isFetching w = false -> data_json w = Fail msg ->
  exists w',
    step cfg w Tick = Some w' /\
    console w' = console w ++ [Log "Fetching commits...";
                               LogError ("Error during fetch: " +:+ msg)] /\
    isFetching w' = false /\
    pending w' = pending w /\
    requests w' = requests w /\
    step cfg w' Tick = Some (snd (begin_cycle w')).
Proof.
  intros Hi Hf Hdata. cbn [step]. rewrite Hi, Hf.
  unfold begin_cycle, bind, getLastCheck, on_fetch_error.
  cbn [assign_isFetching console_log console_error set_console set_isFetching
       data_json].
  rewrite Hdata. cbn.
  eexists. split; [reflexivity |]. cbn. rewrite Hi.
  split; [rewrite <- app_assoc; reflexivity |].
  repeat split.
Qed.




(** C5. A tick that fires while a cycle is running only logs that it is
    skipped: the flag stays set, the running cycle stays the running cycle,
    no request goes out, the clock is not read and neither file changes, so
    the watermark is the same.  When the running cycle settles, by returning
    or by an error that the callback catches, the flag is cleared, and the
    next tick begins a new cycle.  This holds wherever the cycle ends: after
    its requests, or within the very tick that started it when [data.json]
    cannot be read; and the callback run in one go, if it ends, ends with
    the flag cleared. *)
Theorem C5_overlap_guard cfg w :
  interval w = true ->
  isFetching w = true ->
  (exists w',
     step cfg w Tick = Some w' /\
     w' = set_console
            (console w ++
             [Log "Previous fetch still in progress, skipping this cycle."]) w /\
     isFetching w' = true /\
     pending w' = pending w /\
     requests w' = requests w /\
     watermark w' = watermark w) /\
  (forall e fuel since w0,
     fst (getOrgCommits cfg e fuel (org cfg) since w0) <> Hang ->
     exists w', finish_cycle cfg e fuel since w0 = (Ret tt, w') /\
                isFetching w' = false) /\
  (forall e fuel w',
     step cfg w (Settle e fuel) = Some w' ->
     isFetching w' = false /\ pending w' = None /\
     step cfg w' Tick = Some (snd (begin_cycle w'))) /\
  (forall w0 msg,
     interval w0 = true -> isFetching w0 = false ->
     data_json w0 = Fail msg ->
     exists w', step cfg w0 Tick = Some w' /\
                isFetching w' = false /\
                pending w' = pending w0 /\
                requests w' = requests w0 /\
                step cfg w' Tick = Some (snd (begin_cycle w'))) /\
  (forall e fuel w0,
     isFetching w0 = false ->
     fst (timer_callback cfg e fuel w0) <> Hang ->
     exists w', timer_callback cfg e fuel w0 = (Ret tt, w') /\
                isFetching w' = false).
Proof.
  intros Hi Hf. split; [| split; [| split; [| split]]].
  - eexists. split; [simpl; rewrite Hi, Hf; reflexivity |].
    split; [reflexivity |]. split; [exact Hf |]. repeat split.
  - intros e fuel since w0 Hno.
    pose proof (finish_cycle_spec cfg e fuel since w0) as Hfin.
    destruct (fst (getOrgCommits cfg e fuel (org cfg) since w0));
      [| | congruence];
      destruct Hfin as (w' & Hrun & Hf' & _); exists w'; auto.
  - intros e fuel w' Hstep.
    pose proof (tick_after_settle cfg w e fuel w' Hi Hstep) as Hnext.
    apply step_settle in Hstep as (Hf' & Hp' & _). auto.
  - intros w0 msg Hi0 Hf0 Hdata.
    destruct (tick_unreadable cfg w0 msg Hi0 Hf0 Hdata)
      as (w' & Hstep & _ & Hf' & Hp' & Hreq & Hnext).
    exists w'. auto.
  - intros e fuel w0 Hf0 Hno.
    destruct (timer_callback_spec cfg e fuel w0)
      as [(w' & Hrun & _ & _ & Hclear) | (w' & Hrun)].
    + exists w'. split; [exact Hrun | apply Hclear, Hf0].
    + rewrite Hrun in Hno. simpl in Hno. congruence.
Qed.

Lemma C5_witness :
  interval Scenario.running = true /\
  isFetching Scenario.running = true /\
  (exists w',
     step Scenario.cfg Scenario.running Tick = Some w' /\
     w' = set_console
            (console Scenario.running ++
             [Log "Previous fetch still in progress, skipping this cycle."])
            Scenario.running /\
     isFetching w' = true /\
     pending w' = pending Scenario.running /\
     requests w' = requests Scenario.running /\
     watermark w' = watermark Scenario.running) /\
  (forall e fuel w',
     step Scenario.cfg Scenario.running (Settle e fuel) = Some w' ->
     isFetching w' = false /\ pending w' = None /\
     step Scenario.cfg w' Tick = Some (snd (begin_cycle w'))) /\
  (exists w', step Scenario.cfg Scenario.unreadable Tick = Some w' /\
              isFetching w' = false /\
              pending w' = pending Scenario.unreadable /\
              requests w' = requests Scenario.unreadable /\
              step Scenario.cfg w' Tick = Some (snd (begin_cycle w'))) /\
  (exists w', timer_callback Scenario.cfg Scenario.down 2 Scenario.polling
              = (Ret tt, w') /\
              isFetching w' = false).
Proof.
  split; [vm_compute; reflexivity |].
  split; [vm_compute; reflexivity |].
  destruct (C5_overlap_guard Scenario.cfg Scenario.running)
    as (H1 & _ & H3 & H4 & H5);
    [vm_compute; reflexivity | vm_compute; reflexivity |].
  split; [exact H1 | split; [exact H3 | split]].
  - apply (H4 Scenario.unreadable "Unexpected end of JSON input");
      reflexivity.
  - apply (H5 Scenario.down 2 Scenario.polling).
    + vm_compute. reflexivity.
    + vm_compute. discriminate.
Defined.

(** * Further properties of the lister *)

(** X1. The backward trim cuts a run of entries at the end of the page and
    nothing else: every entry it cuts is older than [since], the entry it
    stops at is not, and the final [pushedAt] is the push time of that entry;
    when it cuts the whole page the final [pushedAt] is older than [since].
    Entries older than [since] that stand before a newer one are kept. *)
Theorem X1_trim_cuts_old_suffix since page :
  page <> [] ->
  exists old t,
    page = fst (trim since page) ++ old /\
    Forall (fun r => older since r = true) old /\
    snd (trim since page) = Num t /\
    match last (fst (trim since page)) with
    | Some r => older since r = false /\ t = pushed_at r
    | None => js_lt (Num t) since = true
    end.
Proof.
  induction page as [|r l IH] using rev_ind; intros Hne; [congruence |].
  rewrite trim_snoc. fold (older since r).
  destruct (older since r) eqn:Hr.
  - destruct l as [|x l].
    + exists [r], (pushed_at r). simpl. repeat split; [| exact Hr].
      constructor; [exact Hr | constructor].
    + destruct IH as (old & t & Hpage & Hold & Ht & Hlast); [discriminate |].
      exists (old ++ [r]), t. split; [| split; [| split]].
      * rewrite app_assoc, <- Hpage. reflexivity.
      * apply Forall_app. split; [exact Hold |].
        constructor; [exact Hr | constructor].
      * exact Ht.
      * exact Hlast.
  - exists [], (pushed_at r). simpl. rewrite app_nil_r, last_snoc.
    repeat split; [constructor | exact Hr].
Qed.

Lemma X1_witness :
  let page := [Scenario.repo_at "a" 50; Scenario.repo_at "b" 10;
               Scenario.repo_at "c" 40; Scenario.repo_at "d" 20] in
  fst (trim (Num 35) page) =
    [Scenario.repo_at "a" 50; Scenario.repo_at "b" 10; Scenario.repo_at "c" 40] /\
  exists old t,
    page = fst (trim (Num 35) page) ++ old /\
    Forall (fun r => older (Num 35) r = true) old /\
    snd (trim (Num 35) page) = Num t /\
    match last (fst (trim (Num 35) page)) with
    | Some r => older (Num 35) r = false /\ t = pushed_at r
    | None => js_lt (Num t) (Num 35) = true
    end.
Proof.
  cbv zeta. split; [vm_compute; reflexivity |].
  apply (X1_trim_cuts_old_suffix (Num 35)). discriminate.
Defined.

Section ListerMore.
Context (e : Env) (org : string).

(** With [since = NaN] nothing is older than [since]: no page is trimmed. *)
Lemma trim_NaN page :
  page <> [] -> exists t, trim NaN page = (page, t) /\ js_lt t NaN = false.
Proof.
  destruct page as [|r l] using rev_ind; intros Hne; [congruence |].
  rewrite trim_snoc. simpl. eexists. split; reflexivity.
Qed.

Lemma getOrgRepos_loop_NaN (R : list Repo) :
  (forall pages, org_repos e org pages = Ok (paginate R pages)) ->
  forall fuel pages repoList w,
    1 <= pages ->
    length (drop (per_page * (pages - 1)) R) + per_page <= per_page * fuel ->
    exists k w',
      getOrgRepos_loop fuel e org NaN repoList pages w =
        (Ret (repoList ++ drop (per_page * (pages - 1)) R), w') /\
      requests w' = requests w ++ map (GetOrgRepos org) (seq pages (S k)) /\
      paginate R (pages + k) = [] /\
      (forall q, pages <= q -> q < pages + k -> paginate R q <> []).
Proof.
  intros served.
  induction fuel as [|fuel IH]; intros pages repoList w Hp Hlen.
  { unfold per_page in Hlen. lia. }
  rewrite (getOrgRepos_loop_step _ _ _ _ _ _ _ _ (served pages)). cbv zeta.
  set (w1 := after_page_request e org pages w).
  assert (requests w1 = requests w ++ [GetOrgRepos org pages]) as Hw1
    by apply requests_after_page_request.
  destruct (Nat.eqb_spec (length (paginate R pages)) 0) as [Hempty|Hnonempty].
  - assert (paginate R pages = []) as Hnil
      by (destruct (paginate R pages); [reflexivity | discriminate]).
    assert (drop (per_page * (pages - 1)) R = []) as ->.
    { unfold paginate in Hnil.
      destruct (drop (per_page * (pages - 1)) R); [reflexivity | discriminate]. }
    exists 0, w1. rewrite app_nil_r, Nat.add_0_r.
    split; [reflexivity | split; [exact Hw1 | split; [exact Hnil |]]].
    intros q ? ?. lia.
  - assert (paginate R pages <> []) as Hne.
    { intros H. rewrite H in Hnonempty. simpl in Hnonempty. lia. }
    destruct (trim_NaN _ Hne) as (t & -> & ->).
    assert (drop (per_page * (S pages - 1)) R =
            drop per_page (drop (per_page * (pages - 1)) R)) as Hnext.
    { rewrite drop_drop. f_equal. unfold per_page. lia. }
    destruct (IH (S pages) (repoList ++ paginate R pages) w1)
      as (k & w' & Hrun & Hreq & Hlast & Hbefore).
    + lia.
    + rewrite Hnext, length_drop.
      assert (length (drop (per_page * (pages - 1)) R) <> 0).
      { intros H0. apply Hne. unfold paginate.
        destruct (drop (per_page * (pages - 1)) R); [reflexivity | discriminate]. }
      unfold per_page in *. lia.
    + exists (S k), w'. rewrite Hrun, Hnext. split; [| split; [| split]].
      * rewrite <- app_assoc. unfold paginate. rewrite take_drop. reflexivity.
      * rewrite Hreq, Hw1, <- app_assoc. reflexivity.
      * replace (pages + S k) with (S pages + k) by lia. exact Hlast.
      * intros q Hq1 Hq2. destruct (decide (q = pages)) as [->|Hneq];
          [exact Hne | apply Hbefore; lia].
Qed.

(** X2. When the watermark read from [data.json] is not a date
    ([since = NaN], as with a missing [last_checked]), no comparison
    [pushedAt < since] holds: the lister returns the whole listing, unsorted
    or not, and stops only at the first empty page. *)
Theorem X2_lister_without_watermark_returns_all (R : list Repo) fuel w :
  (forall pages, org_repos e org pages = Ok (paginate R pages)) ->
  length R + per_page <= per_page * fuel ->
  exists k w',
    getOrgRepos fuel e org NaN w = (Ret R, w') /\
    requests w' = requests w ++ map (GetOrgRepos org) (seq 1 (S k)) /\
    paginate R (1 + k) = [] /\
    (forall q, 1 <= q -> q < 1 + k -> paginate R q <> []).
Proof.
  intros served Hfuel.
  destruct (getOrgRepos_loop_NaN R served fuel 1 [] w)
    as (k & w' & Hrun & Hrest); [lia | simpl; exact Hfuel |].
  exists k, w'. split; [exact Hrun | exact Hrest].
Qed.

(** X3. The loop ends at the latest at the first page the platform returns
    empty: with one unit of fuel per page up to that page, [getOrgRepos]
    returns or throws. *)
Theorem X3_lister_stops_at_empty_page since p fuel w :
  1 <= p -> org_repos e org p = Ok [] -> p <= fuel ->
  fst (getOrgRepos fuel e org since w) <> Hang.
Proof.
  intros Hp Hempty Hfuel. unfold getOrgRepos.
  assert (forall fuel pages repoList w,
            pages <= p -> p - pages < fuel ->
            fst (getOrgRepos_loop fuel e org since repoList pages w) <> Hang)
    as Hloop.
  { clear fuel w Hfuel. induction fuel as [|fuel IH];
      intros pages repoList w Hle Hlt; [lia |].
    destruct (org_repos e org pages) as [page|msg] eqn:Hpage.
    - rewrite (getOrgRepos_loop_step _ _ _ _ _ _ _ _ Hpage). cbv zeta.
      destruct (Nat.eqb_spec (length page) 0) as [_|Hne]; [discriminate |].
      destruct (trim since page) as [page' pushedAt].
      destruct (js_lt pushedAt since); [discriminate |].
      assert (pages <> p) as Hneq.
      { intros ->. rewrite Hempty in Hpage. injection Hpage as <-.
        apply Hne. reflexivity. }
      apply IH; lia.
    - cbn [getOrgRepos_loop]. unfold bind at 1. cbn [console_log].
      unfold bind at 1. unfold await_request. rewrite Hpage. discriminate. }
  apply Hloop; lia.
Qed.

(** X4. The loop has no other way out than an empty page, a page trimmed to
    nothing, or a failed request: against a platform whose every page is
    non-empty and ends with an entry that is not older than [since], the
    lister is still running whatever fuel it is given. *)
Theorem X4_lister_runs_on_while_pages_are_recent since fuel w :
  (forall pages, exists page r,
     org_repos e org pages = Ok page /\ last page = Some r /\
     older since r = false) ->
  fst (getOrgRepos fuel e org since w) = Hang.
Proof.
  intros Hpages. unfold getOrgRepos. generalize (@nil Repo) at 1, 1, w.
  induction fuel as [|fuel IH]; intros repoList pages w0; [reflexivity |].
  destruct (Hpages pages) as (page & r & Hpage & Hlast & Hr).
  rewrite (getOrgRepos_loop_step _ _ _ _ _ _ _ _ Hpage). cbv zeta.
  apply last_Some in Hlast as (l & ->).
  rewrite trim_snoc. fold (older since r). rewrite Hr.
  rewrite length_app. simpl length.
  replace (length l + 1 =? 0) with false by (symmetry; apply Nat.eqb_neq; lia).
  unfold older in Hr. rewrite Hr. apply IH.
Qed.
End ListerMore.

Lemma X2_witness :
  let R := [Scenario.repo_at "a" 10; Scenario.repo_at "b" 50] in
  exists k w',
    getOrgRepos 2 (Scenario.platform R (Ok []) (Ok []) (Ok tt))
      "marlinprotocol" NaN Scenario.start = (Ret R, w') /\
    requests w' =
      requests Scenario.start ++
      map (GetOrgRepos "marlinprotocol") (seq 1 (S k)) /\
    paginate R (1 + k) = [] /\
    (forall q, 1 <= q -> q < 1 + k -> paginate R q <> []).
Proof.
  cbv zeta.
  apply (X2_lister_without_watermark_returns_all
           (Scenario.platform [Scenario.repo_at "a" 10; Scenario.repo_at "b" 50]
              (Ok []) (Ok []) (Ok tt))
           "marlinprotocol").
  - intros pages. reflexivity.
  - vm_compute. lia.
Defined.

Lemma X3_witness :
  fst (getOrgRepos 2 (Scenario.platform Scenario.ten (Ok []) (Ok []) (Ok tt))
         "marlinprotocol" (Num 5) Scenario.start) <> Hang.
Proof.
  apply (X3_lister_stops_at_empty_page
           (Scenario.platform Scenario.ten (Ok []) (Ok []) (Ok tt))
           "marlinprotocol" (Num 5) 2).
  - lia.
  - reflexivity.
  - lia.
Defined.

Lemma X4_witness :
  let e := {| org_repos := fun _ _ => Ok [Scenario.repo_at "a" 50];
              repo_branches := fun _ _ => Ok [];
              branch_commits := fun _ _ _ _ => Ok [];
              webhook := fun _ _ => Ok tt;
              latency := fun _ => 5000%Z;
              toLocaleString := fun s => s |} in
  fst (getOrgRepos 7 e "marlinprotocol" (Num 35) Scenario.start) = Hang.
Proof.
  cbv zeta. apply X4_lister_runs_on_while_pages_are_recent.
  intros pages. exists [Scenario.repo_at "a" 50], (Scenario.repo_at "a" 50).
  repeat split.
Defined.

(** * Further properties of a cycle *)

Section CycleMore.
Context (cfg : Config) (e : Env) (fuel : nat).

(** A cycle whose listing returned: what it returns and the world it
    leaves. *)
Lemma getOrgCommits_run org since w repos w1 :
  getOrgRepos fuel e org since w = (Ret repos, w1) ->
  exists w2,
    net_step e w w2 /\
    (exists fan, requests w2 = requests w1 ++ fan /\
                 fan ≡ₚ cycle_requests cfg e since repos) /\
    getOrgCommits cfg e fuel org since w =
      (Ret (cycle_result e since repos),
       persist_world match repos with
                     | [] => None
                     | _ :: _ => Some (cycle_result e since repos)
                     end w2).
Proof.
  intros E1.
  pose proof (networked_getOrgRepos_loop e fuel org since [] 1 w) as H1.
  fold (getOrgRepos fuel e org since) in H1. rewrite E1 in H1. simpl in H1.
  unfold getOrgCommits.
  rewrite (bind_eq_ret _ _ _ _ _ E1).
  set (w1' := set_console (console w1 ++ [Log "Fetched repos:"]) w1).
  rewrite (bind_eq_ret (console_log "Fetched repos:") _ w1 tt w1' eq_refl).
  assert (net_step e w w1') as H1' by exact H1.
  destruct (promise_all_map_spec (repoUpdate cfg e since) (repo_result e since)
              (repo_requests cfg e since)
              (repoUpdate_spec cfg e since) repos w1')
    as (w2 & fan & E2 & Hreq2 & Hfan).
  fold (cycle_requests cfg e since repos) in Hfan.
  change (requests w1') with (requests w1) in Hreq2.
  pose proof (networked_promise_all_map e (repoUpdate cfg e since) repos
                (networked_repoUpdate e cfg since) w1') as H2.
  rewrite E2 in H2. simpl in H2.
  rewrite (bind_eq_ret _ _ _ _ _ E2).
  rewrite omap_id_map. fold (cycle_result e since repos).
  assert (net_step e w w2) as H12 by (eapply net_step_trans; eassumption).
  set (logged := if (0 <? length (emptyRepos_of _ _))%nat then _ else _).
  assert (exists w3, logged w2 = (Ret tt, w3) /\ net_step e w w3 /\
                     requests w3 = requests w2)
    as (w3 & E3 & H3 & Hreq3).
  { unfold logged. destruct (0 <? length _)%nat.
    - eexists. split; [reflexivity | split; [exact H12 | reflexivity]].
    - eexists. split; [reflexivity | split; [exact H12 | reflexivity]]. }
  rewrite <- Hreq3 in Hreq2.
  rewrite (bind_eq_ret _ _ _ _ _ E3).
  exists w3.
  split; [exact H3 | split; [exists fan; split; assumption |]].
  assert (forall w4, exists w5,
            detached (writeLastCheck (clock w4)) w4 = (Ret tt, w5)) as Hwrite.
  { intros w4. unfold detached, writeLastCheck.
    destruct (data_json w4); eexists; reflexivity. }
  destruct repos as [|r repos].
  - erewrite (bind_eq_ret _ _ w3 tt w3) by reflexivity.
    rewrite (bind_eq_ret Date_now _ w3 (clock w3) w3 eq_refl).
    destruct (Hwrite w3) as (w5 & E5).
    rewrite (bind_eq_ret _ _ _ _ _ E5).
    unfold persist_world. rewrite E5. reflexivity.
  - set (result := cycle_result e since (r :: repos)).
    set (w4 := set_commits_json (Some result) w3).
    erewrite (bind_eq_ret _ _ w3 tt w4) by reflexivity.
    rewrite (bind_eq_ret Date_now _ w4 (clock w4) w4 eq_refl).
    destruct (Hwrite w4) as (w5 & E5).
    rewrite (bind_eq_ret _ _ _ _ _ E5).
    unfold persist_world. fold w4. rewrite E5. reflexivity.
Qed.

Lemma persist_world_commits c w :
  commits_json (persist_world c w) =
  match c with
  | Some x => Some x
  | None => commits_json w
  end.
Proof.
  unfold persist_world, detached, writeLastCheck.
  destruct c as [c|]; simpl; destruct (data_json w); reflexivity.
Qed.

Lemma persist_world_unhandled c w data :
  data_json w = Ok data -> unhandled (persist_world c w) = unhandled w.
Proof.
  intros Hdata. unfold persist_world, detached, writeLastCheck.
  destruct c as [c|]; simpl; rewrite Hdata; reflexivity.
Qed.

(** A rejected listing names the page whose request failed. *)
Lemma getOrgRepos_loop_throw org since msg :
  forall f repoList pages w w',
    getOrgRepos_loop f e org since repoList pages w = (Throw msg, w') ->
    exists p, pages <= p /\ org_repos e org p = Fail msg /\
              last (requests w') = Some (GetOrgRepos org p).
Proof.
  induction f as [|f IH]; intros repoList pages w w' Hrun; [discriminate |].
  destruct (org_repos e org pages) as [page|m] eqn:Hpage.
  - rewrite (getOrgRepos_loop_step _ _ _ _ _ _ _ _ Hpage) in Hrun.
    cbv zeta in Hrun.
    destruct (length page =? 0)%nat; [discriminate |].
    destruct (trim since page) as [page' pushedAt].
    destruct (js_lt pushedAt since); [discriminate |].
    apply IH in Hrun as (p & Hle & Hfail & Hlast).
    exists p. split; [lia | split; assumption].
  - cbn [getOrgRepos_loop] in Hrun. unfold bind at 1 in Hrun.
    cbn [console_log] in Hrun. unfold bind at 1 in Hrun.
    unfold await_request in Hrun. rewrite Hpage in Hrun.
    injection Hrun as <- <-.
    exists pages. split; [lia | split; [exact Hpage |]].
    unfold requests. simpl. rewrite map_app. apply last_snoc.
Qed.

(** X5. A cycle is aborted by two errors only: [data.json] cannot be read,
    in which case no request goes out at all, or the request of a page of the
    listing is refused.  An aborted cycle writes neither file, so the
    watermark stays where it was, and leaves no rejection unhandled. *)
Theorem X5_aborted_cycle_writes_nothing w msg w' :
  main cfg e fuel w = (Throw msg, w') ->
  data_json w' = data_json w /\
  commits_json w' = commits_json w /\
  unhandled w' = unhandled w /\
  watermark w' = watermark w /\
  ((data_json w = Fail msg /\ w' = w) \/
   (exists p, 1 <= p /\ org_repos e (org cfg) p = Fail msg /\
              last (requests w') = Some (GetOrgRepos (org cfg) p))).
Proof.
  unfold main, bind, getLastCheck. intros Hrun.
  destruct (data_json w) as [data|m] eqn:Hdata.
  - simpl in Hrun. set (w0 := set_console _ w) in Hrun.
    set (since := Date_getTime (data !! "last_checked")) in Hrun.
    destruct (getOrgCommits_cases cfg e fuel (org cfg) since w0)
      as (w2 & Hnet & [(repos & w1 & c & _ & _ & Heq)
                      | [(m & Hlist & Heq) | [_ Heq]]]);
      rewrite Heq in Hrun; try discriminate.
    injection Hrun as <- <-.
    destruct Hnet as (_ & Hd & Hc & Hu & _).
    assert (data_json w2 = data_json w) as Hd' by exact Hd.
    split; [rewrite Hd', Hdata; reflexivity |].
    split; [exact Hc | split; [exact Hu |]].
    split; [unfold watermark; rewrite Hd'; reflexivity |].
    right. apply getOrgRepos_loop_throw in Hlist. exact Hlist.
  - injection Hrun as <- <-. rewrite Hdata.
    repeat split. left. split; reflexivity.
Qed.

(** X6. A completed cycle overwrites [commits.json] with its result exactly
    when the listing returned at least one repository; with an empty listing
    the file is left as it was.  The watermark is written in both cases. *)
Theorem X6_commits_file_only_when_listed org since w r w' data :
  data_json w = Ok data ->
  getOrgCommits cfg e fuel org since w = (Ret r, w') ->
  exists repos w1,
    getOrgRepos fuel e org since w = (Ret repos, w1) /\
    r = cycle_result e since repos /\
    commits_json w' = match repos with
                      | [] => commits_json w
                      | _ :: _ => Some r
                      end /\
    data_json w' =
      Ok (<["last_checked" := ISODateString (Num (clock w'))]> data).
Proof.
  intros Hdata Hrun.
  destruct (getOrgRepos fuel e org since w) as [[repos|m|] w1] eqn:Hlist.
  - destruct (getOrgCommits_run org since w repos w1 Hlist)
      as (w2 & Hnet & _ & Heq).
    rewrite Heq in Hrun. injection Hrun as <- <-.
    exists repos, w1. split; [reflexivity | split; [reflexivity |]].
    destruct Hnet as (_ & Hd & Hc & _).
    destruct (persist_world_frame
                match repos with
                | [] => None
                | _ :: _ => Some (cycle_result e since repos)
                end w2) as (Hclock & _).
    split.
    + rewrite persist_world_commits. destruct repos; [exact Hc | reflexivity].
    + rewrite persist_world_data, Hclock, Hd, Hdata. reflexivity.
  - unfold getOrgCommits in Hrun.
    rewrite (bind_eq_throw _ _ _ _ _ Hlist) in Hrun. discriminate.
  - unfold getOrgCommits in Hrun.
    rewrite (bind_eq_hang _ _ _ _ Hlist) in Hrun. discriminate.
Qed.

(** X7. When [data.json] holds an object, the call of [writeLastCheck] that
    nobody awaits does not reject within a cycle: [getLastCheck] has read
    the same file at the start of the cycle and nothing in between writes
    it.  So whatever way [main] ends, it leaves no unhandled rejection. *)
Theorem X7_cycle_leaves_no_unhandled_rejection w data :
  data_json w = Ok data ->
  unhandled (snd (main cfg e fuel w)) = unhandled w.
Proof.
  intros Hdata. unfold main, bind, getLastCheck. rewrite Hdata.
  simpl. set (w0 := set_console _ w).
  set (since := Date_getTime (data !! "last_checked")).
  destruct (getOrgCommits_cases cfg e fuel (org cfg) since w0)
    as (w2 & Hnet & [(repos & w1 & c & _ & _ & Heq)
                    | [(m & _ & Heq) | [_ Heq]]]);
    rewrite Heq; simpl; destruct Hnet as (_ & Hd & _ & Hu & _).
  - rewrite (persist_world_unhandled c w2 data); [exact Hu |].
    rewrite Hd. exact Hdata.
  - exact Hu.
  - exact Hu.
Qed.
End CycleMore.

(** X8. Whatever the platform answers, the lister asks for the pages
    1, 2, 3, ... in this order, each once, and for nothing else. *)
Theorem X8_lister_requests_consecutive_pages e org since fuel w :
  exists k,
    requests (snd (getOrgRepos fuel e org since w)) =
    requests w ++ map (GetOrgRepos org) (seq 1 k).
Proof.
  unfold getOrgRepos. generalize (@nil Repo) at 1, 1, w.
  induction fuel as [|fuel IH]; intros repoList pages w0.
  { exists 0. simpl. rewrite app_nil_r. reflexivity. }
  assert (requests (after_page_request e org pages w0) =
          requests w0 ++ [GetOrgRepos org pages]) as Hw1
    by apply requests_after_page_request.
  destruct (org_repos e org pages) as [page|msg] eqn:Hpage.
  - rewrite (getOrgRepos_loop_step _ _ _ _ _ _ _ _ Hpage). cbv zeta.
    destruct (length page =? 0)%nat; [exists 1; exact Hw1 |].
    destruct (trim since page) as [page' pushedAt].
    destruct (js_lt pushedAt since); [exists 1; exact Hw1 |].
    destruct (IH (repoList ++ page') (S pages)
                (after_page_request e org pages w0)) as (k & ->).
    exists (S k). rewrite Hw1, <- app_assoc. reflexivity.
  - exists 1. cbn [getOrgRepos_loop]. unfold bind at 1. cbn [console_log].
    unfold bind at 1. unfold await_request. rewrite Hpage. exact Hw1.
Qed.

Section ResultMore.
Context (cfg : Config) (e : Env).

(** A cycle that returned: its listing returned, and the rest follows. *)
Lemma getOrgCommits_ret_inv fuel org since w r w' :
  getOrgCommits cfg e fuel org since w = (Ret r, w') ->
  exists repos w1 w2,
    getOrgRepos fuel e org since w = (Ret repos, w1) /\
    r = cycle_result e since repos /\
    (exists fan, requests w2 = requests w1 ++ fan /\
                 fan ≡ₚ cycle_requests cfg e since repos) /\
    requests w' = requests w2.
Proof.
  intros Hrun.
  destruct (getOrgRepos fuel e org since w) as [[repos|m|] w1] eqn:Hlist.
  - destruct (getOrgCommits_run cfg e fuel org since w repos w1 Hlist)
      as (w2 & _ & Hreq & Heq).
    rewrite Heq in Hrun. injection Hrun as <- <-.
    exists repos, w1, w2. split; [reflexivity | split; [reflexivity |]].
    split; [exact Hreq |]. apply persist_world_frame.
  - unfold getOrgCommits in Hrun.
    rewrite (bind_eq_throw _ _ _ _ _ Hlist) in Hrun. discriminate.
  - unfold getOrgCommits in Hrun.
    rewrite (bind_eq_hang _ _ _ _ Hlist) in Hrun. discriminate.
Qed.

Lemma cycle_result_entries since repos :
  Forall2 (fun u repoInfo =>
             repo u = name repoInfo /\
             branchCommits u <> [] /\
             map branch (branchCommits u) =
             map branch_name
                 (branches_of e (owner_login repoInfo) (name repoInfo)))
          (cycle_result e since repos)
          (List.filter (has_branches e) repos).
Proof.
  unfold cycle_result.
  induction repos as [|r repos IH]; [constructor |].
  cbn [omap list_omap List.filter]. unfold repo_result at 1, has_branches at 1.
  fold (omap (repo_result e since) repos).
  destruct (branches_of e (owner_login r) (name r)) as [|b bs] eqn:Hb.
  - exact IH.
  - constructor; [| exact IH]. cbn [repo branchCommits].
    split; [reflexivity | split; [discriminate |]].
    rewrite Hb, map_map. reflexivity.
Qed.

(** X9. The result of a completed cycle has one entry for every listed
    repository with at least one branch, in the order of the listing, under
    the repository's name; the entry has one item per branch of the
    repository, in the platform's order.  A listed repository without
    branches, or whose branch request failed, has no entry. *)
Theorem X9_result_lists_repositories_with_branches fuel org since w r w' :
  getOrgCommits cfg e fuel org since w = (Ret r, w') ->
  exists repos w1,
    getOrgRepos fuel e org since w = (Ret repos, w1) /\
    Forall2 (fun u repoInfo =>
               repo u = name repoInfo /\
               branchCommits u <> [] /\
               map branch (branchCommits u) =
               map branch_name
                   (branches_of e (owner_login repoInfo) (name repoInfo)))
            r (List.filter (has_branches e) repos).
Proof.
  intros Hrun.
  apply getOrgCommits_ret_inv in Hrun as (repos & w1 & w2 & Hlist & -> & _).
  exists repos, w1. split; [exact Hlist | apply cycle_result_entries].
Qed.

Lemma blocks_of_None commitLogs :
  blocks_of e commitLogs = None <-> Exists (fun c => author c = None) commitLogs.
Proof.
  induction commitLogs as [|c cs IH]; simpl.
  - split; [discriminate | intros H; inversion H].
  - unfold block_of. destruct (author c) as [login|] eqn:Hc.
    + destruct (blocks_of e cs) as [bs|].
      * split; [discriminate |]. intros H.
        apply Exists_cons in H as [H|H]; [congruence |].
        apply IH in H. discriminate.
      * split; [| reflexivity]. intros _. right. apply IH. reflexivity.
    + split; [| reflexivity]. intros _. left. exact Hc.
Qed.

(** X10. [sendToDiscord] rejects exactly when one of the commits has a null
    [author]; it then has made no request.  In every other case it returns,
    whatever the webhook answers. *)
Theorem X10_notifier_rejects_iff_author_missing repoName branchName
    commitLogs w :
  ((exists msg, fst (sendToDiscord cfg e repoName branchName commitLogs w)
                = Throw msg) <->
   Exists (fun c => author c = None) commitLogs) /\
  (Exists (fun c => author c = None) commitLogs ->
   requests (snd (sendToDiscord cfg e repoName branchName commitLogs w))
   = requests w) /\
  (Forall (fun c => author c <> None) commitLogs ->
   fst (sendToDiscord cfg e repoName branchName commitLogs w) = Ret tt).
Proof.
  pose proof (sendToDiscord_spec cfg e repoName branchName commitLogs w) as Hs.
  pose proof (blocks_of_None commitLogs) as Hb.
  unfold message_of in Hs.
  destruct (blocks_of e commitLogs) as [bs|].
  - destruct Hs as (w' & Hrun & _). rewrite Hrun. simpl.
    assert (~ Exists (fun c => author c = None) commitLogs) as Hno.
    { intros H. apply Hb in H. discriminate. }
    split; [| split].
    + split; [intros (msg & H); discriminate | intros H; contradiction].
    + intros H. contradiction.
    + reflexivity.
  - destruct Hs as (msg & Hrun). rewrite Hrun. simpl.
    assert (Exists (fun c => author c = None) commitLogs) as Hyes
      by (apply Hb; reflexivity).
    split; [| split].
    + split; [intros _; exact Hyes | intros _; exists msg; reflexivity].
    + reflexivity.
    + intros Hall. exfalso.
      apply Exists_exists in Hyes as (c & Hin & Hc).
      rewrite Forall_forall in Hall. exact (Hall c Hin Hc).
Qed.

Lemma count_posts_app rs1 rs2 :
  count_posts (rs1 ++ rs2) = count_posts rs1 + count_posts rs2.
Proof. unfold count_posts. rewrite List.filter_app, length_app. reflexivity. Qed.

Lemma count_posts_perm rs1 rs2 :
  rs1 ≡ₚ rs2 -> count_posts rs1 = count_posts rs2.
Proof.
  unfold count_posts. induction 1 as [|x l l' _ IH|x y l|l l' l'' _ IH1 _ IH2].
  - reflexivity.
  - simpl. destruct x; simpl; rewrite IH; reflexivity.
  - simpl. destruct x, y; reflexivity.
  - congruence.
Qed.

Lemma count_posts_branch since repoInfo b :
  count_posts (branch_requests cfg e since repoInfo b) =
  match commits (branch_result e since repoInfo b) with
  | [] => 0
  | _ :: _ => 1
  end.
Proof.
  unfold branch_requests, branch_result, posts_of, commits_of. cbn [commits].
  destruct (fetched_commits e _ _ _ since) as [|c cs]; [reflexivity |].
  destruct (message_of e _ _ (c :: cs)); reflexivity.
Qed.

Lemma count_posts_branches since repoInfo bs :
  count_posts (flat_map (branch_requests cfg e since repoInfo) bs) =
  length (List.filter (fun bc => match commits bc with
                                 | [] => false
                                 | _ :: _ => true
                                 end)
                      (map (branch_result e since repoInfo) bs)).
Proof.
  induction bs as [|b bs IH]; [reflexivity |].
  cbn [flat_map map List.filter]. rewrite count_posts_app, IH.
  rewrite count_posts_branch.
  destruct (commits (branch_result e since repoInfo b)); reflexivity.
Qed.

Lemma count_posts_cycle since repos :
  count_posts (cycle_requests cfg e since repos) =
  nonempty_batches (cycle_result e since repos).
Proof.
  unfold cycle_requests, cycle_result, nonempty_batches.
  induction repos as [|r repos IH]; [reflexivity |].
  cbn [flat_map omap list_omap].
  fold (omap (repo_result e since) repos).
  rewrite count_posts_app, IH. unfold repo_requests, repo_result.
  change (count_posts (?x :: ?l)) with (count_posts ([x] ++ l)).
  rewrite count_posts_app, count_posts_branches.
  destruct (branches_of e (owner_login r) (name r)) as [|b bs].
  - reflexivity.
  - cbn [flat_map branchCommits]. rewrite List.filter_app, length_app.
    reflexivity.
Qed.

Lemma count_posts_pages org pages k :
  count_posts (map (GetOrgRepos org) (seq pages k)) = 0.
Proof.
  revert pages. induction k as [|k IH]; intros pages; [reflexivity |].
  simpl. apply IH.
Qed.

(** X11. In a completed cycle the webhook is called once for every branch
    item of the result whose commit list is not empty, and not otherwise:
    the number of webhook calls of the cycle is the number of such items. *)
Theorem X11_one_post_per_nonempty_batch fuel org since w r w' :
  getOrgCommits cfg e fuel org since w = (Ret r, w') ->
  exists new,
    requests w' = requests w ++ new /\
    count_posts new = nonempty_batches r.
Proof.
  intros Hrun.
  apply getOrgCommits_ret_inv in Hrun
    as (repos & w1 & w2 & Hlist & -> & (fan & Hreq2 & Hfan) & Hreq').
  destruct (X8_lister_requests_consecutive_pages e org since fuel w) as (k & Hk).
  rewrite Hlist in Hk. simpl in Hk.
  exists (map (GetOrgRepos org) (seq 1 k) ++ fan).
  split.
  - rewrite Hreq', Hreq2, Hk, <- app_assoc. reflexivity.
  - rewrite count_posts_app, count_posts_pages, (count_posts_perm _ _ Hfan),
      count_posts_cycle.
    reflexivity.
Qed.
End ResultMore.

(** * Further properties of the process *)

Lemma net_step_clock e w w' :
  (forall r, (0 <= latency e r)%Z) -> net_step e w w' ->
  (clock w <= clock w')%Z.
Proof. intros Hlat [(new & _ & Htimes) _]. apply Htimes, Hlat. Qed.

(** The world a settled cycle leaves: the clock has moved on with the
    requests, and [data.json] is as before or holds the time of the write. *)
Lemma finish_cycle_world cfg e fuel since w w' :
  finish_cycle cfg e fuel since w = (Ret tt, w') ->
  exists w2,
    net_step e w w2 /\ clock w' = clock w2 /\
    (data_json w' = data_json w \/
     data_json w' = data_json (persist_world None w2)).
Proof.
  unfold finish_cycle, try_finally, try_catch, bind. intros Hrun.
  destruct (getOrgCommits_cases cfg e fuel (org cfg) since w)
    as (w2 & Hnet & [(repos & w1 & c & _ & _ & Heq)
                    | [(m & _ & Heq) | [_ Heq]]]);
    rewrite Heq in Hrun; simpl in Hrun; [| | discriminate];
    injection Hrun as <-; exists w2; (split; [exact Hnet |]); simpl.
  - destruct (persist_world_frame c w2) as (Hc & _).
    split; [exact Hc | right].
    rewrite !persist_world_data. reflexivity.
  - split; [reflexivity | left]. apply Hnet.
Qed.

Lemma floor_second_le (s t : Z) :
  (s <= t)%Z -> (1000 * (s / 1000) <= 1000 * (t / 1000))%Z.
Proof.
  intros H. apply Z.mul_le_mono_nonneg_l; [lia |]. apply Z.div_le_mono; lia.
Qed.

Lemma step_watermark cfg w ev w' s :
  step cfg w ev = Some w' ->
  match ev with
  | Tick => True
  | Settle e _ => forall r, (0 <= latency e r)%Z
  end ->
  four_digit_year (clock w') = true ->
  watermark w = Num s -> (s <= clock w)%Z ->
  (clock w <= clock w')%Z /\
  exists s', watermark w' = Num s' /\ (s' <= clock w')%Z /\
             (s' = s \/ s' = 1000 * (clock w' / 1000))%Z.
Proof.
  intros Hstep Hlat Hyear Hs Hle. destruct ev as [|e fuel]; simpl in Hstep.
  - destruct (interval w); [| discriminate].
    destruct (isFetching w).
    + injection Hstep as <-. simpl. split; [lia |].
      exists s. split; [exact Hs | split; [simpl; lia | left; reflexivity]].
    + injection Hstep as <-.
      unfold begin_cycle, bind, getLastCheck, watermark in *.
      cbn [assign_isFetching console_log set_isFetching set_console
           data_json] in *.
      destruct (data_json w) as [data|m] eqn:Hdata; [| discriminate].
      simpl. split; [lia |]. exists s. rewrite Hdata.
      split; [exact Hs | split; [lia | left; reflexivity]].
  - destruct (pending w) as [since|]; [| discriminate].
    assert (finish_cycle cfg e fuel since (set_pending None w) = (Ret tt, w'))
      as Hfin.
    { pose proof (finish_cycle_spec cfg e fuel since (set_pending None w)) as H.
      destruct (fst (getOrgCommits _ _ _ _ _ _));
        destruct H as (w1 & H); try destruct H as (H & _);
        rewrite H in Hstep; try discriminate;
        injection Hstep as <-; exact H. }
    clear Hstep.
    apply finish_cycle_world in Hfin as (w2 & Hnet & Hclock & Hdata).
    pose proof (net_step_clock e _ _ Hlat Hnet) as Hmono. simpl in Hmono.
    destruct Hnet as (_ & Hd2 & _). simpl in Hd2.
    rewrite Hclock in *. split; [exact Hmono |].
    unfold watermark in *.
    destruct (data_json w) as [data|m] eqn:Hw; [| discriminate].
    destruct Hdata as [Hsame|Hwritten].
    + exists s. simpl in Hsame. rewrite Hsame, Hw.
      split; [exact Hs | split; [lia | left; reflexivity]].
    + rewrite Hwritten, persist_world_data, Hd2.
      exists (1000 * (clock w2 / 1000))%Z. rewrite lookup_insert_eq.
      split; [apply Date_getTime_printed, Hyear |].
      pose proof (Z.mul_div_le (clock w2) 1000 ltac:(lia)).
      split; [lia | right; reflexivity].
Qed.

Lemma four_digit_year_between (a b c : Z) :
  (a <= b)%Z -> (b <= c)%Z ->
  four_digit_year a = true -> four_digit_year c = true ->
  four_digit_year b = true.
Proof. unfold four_digit_year. lia. Qed.

(** The clock does not run backwards along a run in which no request takes
    negative time. *)
Lemma steps_clock cfg evs : forall w w',
  steps cfg w evs = Some w' -> well_timed evs -> (clock w <= clock w')%Z.
Proof.
  induction evs as [|ev evs IH]; intros w w' Hrun Hwt; simpl in Hrun.
  - injection Hrun as <-. lia.
  - destruct (step cfg w ev) as [w1|] eqn:Hstep; [| discriminate].
    apply Forall_cons in Hwt as [Hev Hwt].
    specialize (IH w1 w' Hrun Hwt).
    enough (clock w <= clock w1)%Z by lia.
    destruct ev as [|e fuel]; simpl in Hstep.
    + destruct (interval w); [| discriminate].
      destruct (isFetching w); injection Hstep as <-; [simpl; lia |].
      unfold begin_cycle, bind, getLastCheck.
      cbn [assign_isFetching console_log set_isFetching set_console
           data_json].
      destruct (data_json w); simpl; lia.
    + destruct (pending w) as [since|]; [| discriminate].
      pose proof (finish_cycle_spec cfg e fuel since (set_pending None w)) as H.
      destruct (fst (getOrgCommits _ _ _ _ _ _));
        destruct H as (w2 & H); try destruct H as (H & _);
        rewrite H in Hstep; try discriminate;
        injection Hstep as <-;
        apply finish_cycle_world in H as (w3 & Hnet & -> & _);
        exact (net_step_clock e _ _ Hev Hnet).
Qed.

(** X12. Along any run of the process in which no request takes negative
    time and the clock stays within the years 1000 to 9999, the persisted
    watermark never lies ahead of the clock, provided it did not at the
    start, and never moves back behind the second in which it lay at the
    start: it stays as it is or becomes a whole second at or after that
    one.  A watermark that is a whole second never moves back at all. *)
Theorem X12_watermark_never_moves_back cfg evs : forall w w' s,
  steps cfg w evs = Some w' ->
  well_timed evs ->
  four_digit_year (clock w) = true ->
  four_digit_year (clock w') = true ->
  watermark w = Num s -> (s <= clock w)%Z ->
  exists s', watermark w' = Num s' /\
             (1000 * (s / 1000) <= s' <= clock w')%Z /\
             ((s mod 1000 = 0)%Z -> (s <= s')%Z).
Proof.
  intros w w' s Hrun Hwt Hlo Hhi Hs Hle.
  enough (exists s', watermark w' = Num s' /\ (s' <= clock w')%Z /\
                     (s' = s \/
                      (s' mod 1000 = 0 /\ 1000 * (s / 1000) <= s'))%Z)
    as (s' & Hs' & Hle' & Hcase).
  { exists s'. split; [exact Hs' |].
    pose proof (Z.mul_div_le s 1000 ltac:(lia)).
    pose proof (Z.div_mod s 1000 ltac:(lia)).
    destruct Hcase as [-> | [_ ?]]; (split; [lia |]); intros; lia. }
  revert w s Hrun Hwt Hlo Hs Hle.
  induction evs as [|ev evs IH]; intros w s Hrun Hwt Hlo Hs Hle;
    simpl in Hrun.
  - injection Hrun as <-. exists s. split; [exact Hs | split; [lia | auto]].
  - destruct (step cfg w ev) as [w1|] eqn:Hstep; [| discriminate].
    apply Forall_cons in Hwt as [Hev Hwt].
    pose proof (steps_clock cfg evs w1 w' Hrun Hwt) as Hlater.
    assert (clock w <= clock w1)%Z as Hsooner
      by (apply (steps_clock cfg [ev] w w1);
          [simpl; rewrite Hstep; reflexivity | repeat constructor; exact Hev]).
    assert (four_digit_year (clock w1) = true) as Hmid
      by (eapply four_digit_year_between; eassumption).
    destruct (step_watermark cfg w ev w1 s Hstep Hev Hmid Hs Hle)
      as (_ & s1 & Hs1 & Hle1 & Hcase1).
    destruct (IH w1 s1 Hrun Hwt Hmid Hs1 Hle1) as (s' & Hs' & Hle' & Hcase).
    exists s'. split; [exact Hs' | split; [exact Hle' |]].
    destruct Hcase1 as [-> | ->]; [exact Hcase |].
    (* the step wrote the whole second of its clock *)
    right.
    assert (1000 * (s / 1000) <= 1000 * (clock w1 / 1000))%Z as Hs_le
      by (apply floor_second_le; lia).
    assert (1000 * (clock w1 / 1000) mod 1000 = 0)%Z as Hwhole
      by (rewrite Z.mul_comm; apply Z_mod_mult).
    destruct Hcase as [-> | [Hmod Hfloor]].
    + split; [exact Hwhole | exact Hs_le].
    + split; [exact Hmod |].
      assert (1000 * (clock w1 / 1000) / 1000 = clock w1 / 1000)%Z as Hdiv
        by (rewrite (Z.mul_comm 1000); apply Z.div_mul; lia).
      rewrite Hdiv in Hfloor. lia.
Qed.

Lemma step_flag cfg w ev w' :
  step cfg w ev = Some w' ->
  (isFetching w = true <-> is_Some (pending w)) ->
  (isFetching w' = true <-> is_Some (pending w')).
Proof.
  intros Hstep Hinv. destruct ev as [|e fuel].
  - simpl in Hstep. destruct (interval w); [| discriminate].
    destruct (isFetching w) eqn:Hf.
    + injection Hstep as <-. simpl. rewrite Hf. exact Hinv.
    + injection Hstep as <-.
      destruct (begin_cycle_spec w) as (w1 & Hrun & _ & _ & _ & Hcase).
      rewrite Hrun. simpl.
      destruct (data_json w).
      * destruct Hcase as [-> ->]. split; [eauto | reflexivity].
      * destruct Hcase as [-> ->]. rewrite <- Hinv. reflexivity.
  - apply step_settle in Hstep as (-> & -> & _).
    split; [discriminate | intros [x Hx]; discriminate].
Qed.

(** X13. In every state the process reaches after [startPolling], the flag
    [isFetching] is set exactly while a cycle started by a tick has not yet
    settled: the flag is never left set without a running cycle that will
    clear it, and never clear while one runs. *)
Theorem X13_flag_tracks_running_cycle cfg e fuel w0 w evs w' :
  pending w0 = None ->
  startPolling cfg e fuel w0 = (Ret tt, w) ->
  steps cfg w evs = Some w' ->
  (isFetching w' = true <-> exists since, pending w' = Some since).
Proof.
  intros Hp0 Hstart Hrun.
  assert (isFetching w = true <-> is_Some (pending w)) as Hinv.
  { pose proof (startPolling_spec cfg e fuel w0) as Hspec.
    destruct (fst (main cfg e fuel (first_cycle_world w0)));
      [destruct Hspec as (w1 & Heq & _ & Hf & Hp)
      |destruct Hspec as (w1 & Heq & _ & Hf & Hp)
      |destruct Hspec as (w1 & Heq)];
      rewrite Hstart in Heq; try discriminate;
      injection Heq as <-; rewrite Hf, Hp, Hp0;
      (split; [discriminate | intros [x Hx]; discriminate]). }
  clear Hstart. revert w w' Hrun Hinv.
  induction evs as [|ev evs IH]; intros w w' Hrun Hinv; simpl in Hrun.
  - injection Hrun as <-. exact Hinv.
  - destruct (step cfg w ev) as [w1|] eqn:Hstep; [| discriminate].
    apply (IH w1 w' Hrun). eapply step_flag; eassumption.
Qed.

(** * The text of a date *)

Lemma string_length_app (a b : string) :
  String.length (a +:+ b) = String.length a + String.length b.
Proof. induction a as [|c a IH]; simpl; [reflexivity | rewrite IH; reflexivity]. Qed.

Lemma string_app_inj_length (a a' b b' : string) :
  String.length a = String.length a' ->
  a +:+ b = a' +:+ b' -> a = a' /\ b = b'.
Proof.
  revert a'. induction a as [|c a IH]; intros [|c' a'] Hlen Heq;
    try discriminate.
  - split; [reflexivity | exact Heq].
  - simpl in *. injection Heq as -> Heq. injection Hlen as Hlen.
    destruct (IH a' Hlen Heq) as [-> ->]. split; reflexivity.
Qed.

Lemma pad_length n : n < 100 -> String.length (Text.pad n) = 2.
Proof.
  intros Hn.
  assert (forallb (fun n => String.length (Text.pad n) =? 2) (seq 0 100) = true)
    as Hall by (vm_compute; reflexivity).
  rewrite forallb_forall in Hall.
  apply Nat.eqb_eq, Hall, in_seq. lia.
Qed.

Lemma pad_inj n m : n < 100 -> m < 100 -> Text.pad n = Text.pad m -> n = m.
Proof.
  intros Hn Hm Heq.
  assert (forallb (fun n =>
            forallb (fun m => implb (String.eqb (Text.pad n) (Text.pad m))
                                    (n =? m))
                    (seq 0 100)) (seq 0 100) = true)
    as Hall by (vm_compute; reflexivity).
  rewrite forallb_forall in Hall.
  specialize (Hall n ltac:(apply in_seq; lia)).
  rewrite forallb_forall in Hall.
  specialize (Hall m ltac:(apply in_seq; lia)).
  apply String.eqb_eq in Heq. rewrite Heq in Hall.
  apply Nat.eqb_eq. exact Hall.
Qed.

Lemma year_length (y : Z) :
  (1000 <= y <= 9999)%Z -> String.length (pretty y) = 4.
Proof.
  intros Hy.
  assert (forallb (fun i => String.length (pretty (1000 + Z.of_nat i)%Z) =? 4)
                  (seq 0 (9 * 1000)) = true)
    as Hall by (vm_compute; reflexivity).
  rewrite forallb_forall in Hall.
  specialize (Hall (Z.to_nat (y - 1000)) ltac:(apply in_seq; lia)).
  replace (1000 + Z.of_nat (Z.to_nat (y - 1000)))%Z with y in Hall by lia.
  apply Nat.eqb_eq, Hall.
Qed.

(** X15. For a valid date [ISODateString] builds the year as it is, not
    padded, followed by sixteen characters: two for each of month, day,
    hours, minutes and seconds and the six separators.  For the years 1000 to
    9999 the string has the twenty characters of [YYYY-MM-DDTHH:MM:SSZ]; a
    year below 1000 gives a shorter string. *)
Theorem X15_date_text_width (d : Text.UTCFields) :
  Text.in_range d ->
  String.length (Text.ISODateString d) =
    String.length (pretty (Text.utcFullYear d)) + 16 /\
  ((1000 <= Text.utcFullYear d <= 9999)%Z ->
   String.length (Text.ISODateString d) = 20) /\
  ((0 <= Text.utcFullYear d < 1000)%Z ->
   String.length (Text.ISODateString d) < 20).
Proof.
  intros (Hmo & Hd & Hh & Hmi & Hs).
  assert (String.length (Text.ISODateString d) =
          String.length (pretty (Text.utcFullYear d)) + 16) as Hlen.
  { unfold Text.ISODateString. rewrite !string_length_app.
    rewrite !pad_length by lia. simpl. lia. }
  split; [exact Hlen | split].
  - intros Hy. rewrite Hlen, year_length by exact Hy. reflexivity.
  - intros Hy. rewrite Hlen.
    assert (forallb (fun i => String.length (pretty (Z.of_nat i)) <? 4)
                    (seq 0 1000) = true)
      as Hall by (vm_compute; reflexivity).
    rewrite forallb_forall in Hall.
    specialize (Hall (Z.to_nat (Text.utcFullYear d)) ltac:(apply in_seq; lia)).
    rewrite Z2Nat.id in Hall by lia. apply Nat.ltb_lt in Hall. lia.
Qed.

Lemma X15_witness :
  let d := Text.mkUTCFields 2024 4 1 10 0 7 in
  Text.ISODateString d = "2024-05-01T10:00:07Z" /\
  String.length (Text.ISODateString d) =
    String.length (pretty (Text.utcFullYear d)) + 16 /\
  ((1000 <= Text.utcFullYear d <= 9999)%Z ->
   String.length (Text.ISODateString d) = 20) /\
  ((0 <= Text.utcFullYear d < 1000)%Z ->
   String.length (Text.ISODateString d) < 20).
Proof.
  cbv zeta. split; [vm_compute; reflexivity |].
  apply (X15_date_text_width (Text.mkUTCFields 2024 4 1 10 0 7)).
  unfold Text.in_range. simpl. lia.
Defined.

(** X16. Two valid dates that differ in a field, in the year, month, day,
    hours, minutes or seconds, never get the same string: the string
    [ISODateString] builds determines all six fields. *)
Theorem X16_date_text_determines_fields (d1 d2 : Text.UTCFields) :
  Text.in_range d1 -> Text.in_range d2 ->
  Text.ISODateString d1 = Text.ISODateString d2 ->
  d1 = d2.
Proof.
  intros Hr1 Hr2 Heq.
  pose proof (X15_date_text_width d1 Hr1) as (Hl1 & _).
  pose proof (X15_date_text_width d2 Hr2) as (Hl2 & _).
  destruct Hr1 as (Hmo1 & Hd1 & Hh1 & Hmi1 & Hs1).
  destruct Hr2 as (Hmo2 & Hd2 & Hh2 & Hmi2 & Hs2).
  assert (String.length (pretty (Text.utcFullYear d1)) =
          String.length (pretty (Text.utcFullYear d2))) as Hy
    by (rewrite Heq in Hl1; lia).
  unfold Text.ISODateString in Heq.
  apply string_app_inj_length in Heq as [Hyear Heq]; [| exact Hy].
  injection Heq as Heq. change (String.append EmptyString ?x) with x in Heq.
  apply string_app_inj_length in Heq as [Hmonth Heq];
    [| rewrite !pad_length by lia; reflexivity].
  injection Heq as Heq. change (String.append EmptyString ?x) with x in Heq.
  apply string_app_inj_length in Heq as [Hday Heq];
    [| rewrite !pad_length by lia; reflexivity].
  injection Heq as Heq. change (String.append EmptyString ?x) with x in Heq.
  apply string_app_inj_length in Heq as [Hhours Heq];
    [| rewrite !pad_length by lia; reflexivity].
  injection Heq as Heq. change (String.append EmptyString ?x) with x in Heq.
  apply string_app_inj_length in Heq as [Hmin Heq];
    [| rewrite !pad_length by lia; reflexivity].
  injection Heq as Heq. change (String.append EmptyString ?x) with x in Heq.
  apply string_app_inj_length in Heq as [Hsec _];
    [| rewrite !pad_length by lia; reflexivity].
  apply (inj pretty) in Hyear.
  apply pad_inj in Hmonth; [| lia | lia].
  apply pad_inj in Hday; [| lia | lia].
  apply pad_inj in Hhours; [| lia | lia].
  apply pad_inj in Hmin; [| lia | lia].
  apply pad_inj in Hsec; [| lia | lia].
  destruct d1, d2. simpl in *. f_equal; lia.
Qed.

Lemma X16_witness :
  let d1 := Text.mkUTCFields 2024 4 1 10 0 7 in
  let d2 := Text.mkUTCFields (2000 + 24) (2 + 2) 1 (5 * 2) 0 (3 + 4) in
  Text.in_range d1 /\ Text.in_range d2 /\
  Text.ISODateString d1 = Text.ISODateString d2 /\
  d1 = d2.
Proof.
  cbv zeta.
  assert (Text.in_range (Text.mkUTCFields 2024 4 1 10 0 7)) as H1
    by (unfold Text.in_range; simpl; lia).
  assert (Text.in_range
            (Text.mkUTCFields (2000 + 24) (2 + 2) 1 (5 * 2) 0 (3 + 4))) as H2
    by (unfold Text.in_range; simpl; lia).
  split; [exact H1 | split; [exact H2 | split; [reflexivity |]]].
  apply (X16_date_text_determines_fields _ _ H1 H2). reflexivity.
Defined.

(** * The console has no influence *)

Lemma same_but_console_refl w : same_but_console w w.
Proof. repeat split. Qed.

Lemma same_but_console_trans w1 w2 w3 :
  same_but_console w1 w2 -> same_but_console w2 w3 -> same_but_console w1 w3.
Proof. unfold same_but_console. intuition congruence. Qed.

Lemma same_but_console_log c w : same_but_console w (set_console c w).
Proof. repeat split. Qed.

Ltac blind_prim :=
  intros w1 w2 (Hc & Hd & Hj & Hr & Hu & Hf & Hi & Hp);
  unfold same_but_console; simpl;
  rewrite ?Hc, ?Hd, ?Hj, ?Hr, ?Hu, ?Hf, ?Hi, ?Hp;
  repeat split; auto.

Lemma blind_ret {A} (a : A) : console_blind (ret a).
Proof. blind_prim. Qed.

Lemma blind_throw {A} msg : console_blind (@throw A msg).
Proof. blind_prim. Qed.

Lemma blind_hang {A} : console_blind (@hang A).
Proof. blind_prim. Qed.

Lemma blind_console_log s : console_blind (console_log s).
Proof. blind_prim. Qed.

Lemma blind_console_error s : console_blind (console_error s).
Proof. blind_prim. Qed.

Lemma blind_assign_isFetching b : console_blind (assign_isFetching b).
Proof. blind_prim. Qed.

Lemma blind_Date_now : console_blind Date_now.
Proof. blind_prim. Qed.

Lemma blind_set_commits_json c :
  console_blind (fun w => (Ret tt, set_commits_json c w)).
Proof. blind_prim. Qed.

Lemma blind_await_request {A} e r (answer : Response A) :
  console_blind (await_request e r answer).
Proof. unfold await_request. destruct answer; blind_prim. Qed.

Lemma blind_writeLastCheck d : console_blind (writeLastCheck d).
Proof.
  intros w1 w2 H. unfold writeLastCheck.
  destruct H as (Hc & Hd & Hj & Hr & Hu & Hf & Hi & Hp). rewrite Hd.
  destruct (data_json w2) eqn:Hd2; unfold same_but_console; simpl;
    rewrite ?Hc, ?Hd, ?Hd2, ?Hj, ?Hr, ?Hu, ?Hf, ?Hi, ?Hp; repeat split; auto.
Qed.

Lemma blind_bind {A B} (m : M A) (k : A -> M B) :
  console_blind m -> (forall a, console_blind (k a)) -> console_blind (bind m k).
Proof.
  intros Hm Hk w1 w2 H. unfold bind. destruct (Hm w1 w2 H) as [Ho Hw].
  destruct (m w1) as [[a|msg|] w1'], (m w2) as [[a'|msg'|] w2'];
    simpl in *; try discriminate.
  - injection Ho as <-. apply Hk, Hw.
  - injection Ho as <-. split; [reflexivity | exact Hw].
  - split; [reflexivity | exact Hw].
Qed.

Lemma blind_try_catch {A} (m : M A) (h : string -> M A) :
  console_blind m -> (forall msg, console_blind (h msg)) ->
  console_blind (try_catch m h).
Proof.
  intros Hm Hh w1 w2 H. unfold try_catch. destruct (Hm w1 w2 H) as [Ho Hw].
  destruct (m w1) as [[a|msg|] w1'], (m w2) as [[a'|msg'|] w2'];
    simpl in *; try discriminate.
  - injection Ho as <-. split; [reflexivity | exact Hw].
  - injection Ho as <-. apply Hh, Hw.
  - split; [reflexivity | exact Hw].
Qed.

Lemma blind_try_finally {A} (m : M A) (f : M unit) :
  console_blind m -> console_blind f -> console_blind (try_finally m f).
Proof.
  intros Hm Hf w1 w2 H. unfold try_finally. destruct (Hm w1 w2 H) as [Ho Hw].
  destruct (m w1) as [[a|msg|] w1'], (m w2) as [[a'|msg'|] w2'];
    simpl in *; try discriminate.
  - injection Ho as <-. destruct (Hf w1' w2' Hw) as [Ho' Hw'].
    destruct (f w1') as [[[]|m1|] w1''], (f w2') as [[[]|m2|] w2''];
      simpl in *; try discriminate; try (injection Ho' as <-);
      (split; [reflexivity | exact Hw']).
  - injection Ho as <-. destruct (Hf w1' w2' Hw) as [Ho' Hw'].
    destruct (f w1') as [[[]|m1|] w1''], (f w2') as [[[]|m2|] w2''];
      simpl in *; try discriminate; try (injection Ho' as <-);
      (split; [reflexivity | exact Hw']).
  - split; [reflexivity | exact Hw].
Qed.

Lemma blind_detached (m : M unit) : console_blind m -> console_blind (detached m).
Proof.
  intros Hm w1 w2 H. unfold detached. destruct (Hm w1 w2 H) as [Ho Hw].
  destruct (m w1) as [[[]|msg|] w1'], (m w2) as [[[]|msg'|] w2'];
    simpl in *; try discriminate.
  - split; [reflexivity | exact Hw].
  - injection Ho as <-. split; [reflexivity |].
    destruct Hw as (Hc & Hd & Hj & Hr & Hu & Hf & Hi & Hp).
    unfold same_but_console. simpl. rewrite Hu. repeat split; auto.
  - split; [reflexivity | exact Hw].
Qed.

Lemma blind_if {A} (b : bool) (m1 m2 : M A) :
  console_blind m1 -> console_blind m2 -> console_blind (if b then m1 else m2).
Proof. destruct b; auto. Qed.

Lemma blind_promise_all_map {A B} (f : A -> M B) l :
  (forall a, console_blind (f a)) -> console_blind (promise_all_map f l).
Proof.
  intros Hf. induction l as [|x l IH]; intros w1 w2 Hw;
    cbn [promise_all_map].
  - split; [reflexivity | exact Hw].
  - destruct (Hf x w1 w2 Hw) as [Ho Hv].
    destruct (f x w1) as [o1 v1], (f x w2) as [o2 v2]. simpl in Ho, Hv.
    subst o2.
    assert (same_but_console (set_clock (clock w1) v1)
                             (set_clock (clock w2) v2)) as Hstart.
    { destruct Hw as (Hc & _), Hv as (_ & Hv).
      unfold same_but_console. simpl. rewrite Hc. tauto. }
    destruct (IH _ _ Hstart) as [Ho' Hv'].
    destruct (promise_all_map f l (set_clock (clock w1) v1)) as [o3 v3],
             (promise_all_map f l (set_clock (clock w2) v2)) as [o4 v4].
    simpl in Ho', Hv'. subst o4.
    assert (same_but_console
              (set_clock (Z.max (clock v1) (clock v3))
                 (set_trace (trace w1 ++ merge_by_time
                                           (drop (length (trace w1)) (trace v1))
                                           (drop (length (trace v1)) (trace v3)))
                    v3))
              (set_clock (Z.max (clock v2) (clock v4))
                 (set_trace (trace w2 ++ merge_by_time
                                           (drop (length (trace w2)) (trace v2))
                                           (drop (length (trace v2)) (trace v4)))
                    v4))) as Hend.
    { destruct Hw as (_ & _ & _ & Ht & _), Hv as (Hc1 & _ & _ & Ht1 & _),
               Hv' as (Hc3 & Hd & Hj & Ht3 & Hrest).
      unfold same_but_console. simpl.
      rewrite Ht, Ht1, Ht3, Hc1, Hc3. tauto. }
    destruct o1 as [y|msg|], o3 as [ys|msg'|];
      (split; [reflexivity | exact Hend]).
Qed.

Section Blind.
Context (cfg : Config) (e : Env).

Lemma blind_getOrgRepos_loop fuel org since repoList pages :
  console_blind (getOrgRepos_loop fuel e org since repoList pages).
Proof.
  revert repoList pages.
  induction fuel as [|fuel IH]; intros repoList pages; simpl.
  - apply blind_hang.
  - apply blind_bind; [apply blind_console_log | intros _].
    apply blind_bind; [apply blind_await_request | intros page].
    destruct (length page =? 0)%nat; [apply blind_ret |].
    destruct (trim since page) as [page' pushedAt].
    destruct (js_lt pushedAt since); [apply blind_ret | apply IH].
Qed.

Lemma blind_getRepoBranches owner repo :
  console_blind (getRepoBranches e owner repo).
Proof.
  apply blind_try_catch; [apply blind_await_request | intros msg].
  apply blind_bind; [apply blind_console_error | intros _]. apply blind_ret.
Qed.

Lemma blind_sendToDiscord repoName branchName commitLogs :
  console_blind (sendToDiscord cfg e repoName branchName commitLogs).
Proof.
  unfold sendToDiscord.
  destruct (message_of e repoName branchName commitLogs) as [message|];
    [| apply blind_throw].
  apply blind_try_catch; [| intros msg; apply blind_console_error].
  apply blind_bind; [apply blind_await_request | intros _].
  apply blind_console_log.
Qed.

Lemma blind_getBranchCommits owner repo branch since :
  console_blind (getBranchCommits cfg e owner repo branch since).
Proof.
  apply blind_try_catch.
  - apply blind_bind; [apply blind_await_request | intros cs].
    apply blind_bind; [| intros _; apply blind_ret].
    apply blind_if; [apply blind_sendToDiscord | apply blind_ret].
  - intros msg.
    apply blind_bind; [apply blind_console_error | intros _]. apply blind_ret.
Qed.

Lemma blind_repoUpdate since repoInfo :
  console_blind (repoUpdate cfg e since repoInfo).
Proof.
  apply blind_bind; [apply blind_getRepoBranches | intros bs].
  apply blind_bind; [apply blind_console_log | intros _].
  destruct (length bs =? 0)%nat.
  - apply blind_bind; [apply blind_console_log | intros _]. apply blind_ret.
  - apply blind_bind; [| intros bc; apply blind_ret].
    apply blind_promise_all_map. intros b.
    apply blind_bind; [apply blind_getBranchCommits | intros cs].
    apply blind_bind; [| intros _; apply blind_ret].
    apply blind_if; apply blind_console_log.
Qed.

Lemma blind_getOrgCommits fuel org since :
  console_blind (getOrgCommits cfg e fuel org since).
Proof.
  apply blind_bind; [apply blind_getOrgRepos_loop | intros repos].
  apply blind_bind; [apply blind_console_log | intros _].
  apply blind_bind;
    [apply blind_promise_all_map; intros r; apply blind_repoUpdate
    | intros ups].
  apply blind_bind;
    [apply blind_if; [apply blind_console_log | apply blind_ret] | intros _].
  apply blind_bind;
    [apply blind_if; [apply blind_set_commits_json | apply blind_ret]
    | intros _].
  apply blind_bind; [apply blind_Date_now | intros now].
  apply blind_bind;
    [apply blind_detached, blind_writeLastCheck | intros _].
  apply blind_ret.
Qed.

Lemma blind_finish_cycle fuel since :
  console_blind (finish_cycle cfg e fuel since).
Proof.
  apply blind_try_finally; [| apply blind_assign_isFetching].
  apply blind_try_catch; [| intros msg; apply blind_console_error].
  apply blind_bind; [apply blind_getOrgCommits | intros _].
  apply blind_console_log.
Qed.

Lemma step_settle_blind fuel w1 w2 w1' :
  same_but_console w1 w2 ->
  step cfg w1 (Settle e fuel) = Some w1' ->
  exists w2', step cfg w2 (Settle e fuel) = Some w2' /\
              same_but_console w1' w2'.
Proof.
  intros H Hstep. simpl in *.
  assert (pending w1 = pending w2) as Hp by apply H. rewrite <- Hp.
  destruct (pending w1) as [since|]; [| discriminate].
  assert (same_but_console (set_pending None w1) (set_pending None w2)) as H'.
  { destruct H as (Hc & Hd & Hj & Hr & Hu & Hf & Hi & _).
    unfold same_but_console. simpl. repeat split; assumption. }
  destruct (blind_finish_cycle fuel since _ _ H') as [Ho Hw].
  destruct (finish_cycle cfg e fuel since (set_pending None w1))
    as [o1 x1], (finish_cycle cfg e fuel since (set_pending None w2))
    as [o2 x2]. simpl in Ho, Hw. subst o2.
  destruct o1 as [[]|msg|]; try discriminate;
    injection Hstep as <-; exists x2; (split; [reflexivity | exact Hw]).
Qed.

(** X17. Ticks that fire while a cycle is running leave no trace but their
    lines on the console: however many of them fall before the cycle
    settles, the cycle settles in the state in which it would have settled
    without them, the console apart.  In particular the watermark, both
    files and the requests issued are the same. *)
Theorem X17_skipped_ticks_change_only_the_console fuel w n w1 :
  interval w = true ->
  isFetching w = true ->
  step cfg w (Settle e fuel) = Some w1 ->
  exists w2,
    steps cfg w (repeat Tick n ++ [Settle e fuel]) = Some w2 /\
    same_but_console w1 w2.
Proof.
  intros Hi Hf Hstep.
  assert (forall w', same_but_console w w' ->
            exists w2, steps cfg w' (repeat Tick n ++ [Settle e fuel]) = Some w2
                       /\ same_but_console w1 w2) as Hgen.
  { induction n as [|n IH]; intros w' H.
    - destruct (step_settle_blind fuel w w' w1 H Hstep) as (w2 & Hs & Hw).
      exists w2. simpl repeat. simpl app. cbn [steps]. rewrite Hs.
      split; [reflexivity | exact Hw].
    - cbn [repeat app steps step].
      assert (interval w' = true) as Hi' by (rewrite <- Hi; symmetry; apply H).
      assert (isFetching w' = true) as Hf'
          by (rewrite <- Hf; symmetry; apply H).
      rewrite Hi', Hf'. apply IH.
      eapply same_but_console_trans; [exact H |].
      apply same_but_console_log. }
  apply Hgen, same_but_console_refl.
Qed.
End Blind.

(** * Further properties of the requests of a cycle *)

(** X18. Every commits request of a completed cycle carries the same
    [since] filter: the time value that [getLastCheck] read from
    [data.json] when the cycle started, printed by [ISODateString].  The
    cycle makes no commits request with any other filter. *)
Theorem X18_since_filter_is_printed_watermark cfg e fuel w w' :
  main cfg e fuel w = (Ret tt, w') ->
  exists new,
    requests w' = requests w ++ new /\
    forall owner repo branch since',
      In (GetCommits owner repo branch since') new ->
      since' = ISODateString (watermark w).
Proof.
  intros Hrun. unfold main in Hrun.
  apply bind_ret_inv in Hrun as (since & w0 & Hread & Hrun).
  apply bind_ret_inv in Hrun as (r & w1 & Hrun & Hret).
  injection Hret as ->.
  unfold getLastCheck in Hread. unfold watermark.
  destruct (data_json w) as [data|m]; [| discriminate].
  simpl in Hread. injection Hread as <- <-.
  set (since := Date_getTime (data !! "last_checked")) in *.
  destruct (X8_lister_requests_consecutive_pages e (org cfg) since fuel
              (set_console (console w ++ [Log "last_checked: "]) w))
    as (k & Hk).
  apply getOrgCommits_ret_inv in Hrun
    as (repos & w1 & w2 & Hlist & _ & (fan & Hreq2 & Hfan) & Hreq').
  rewrite Hlist in Hk. simpl in Hk.
  exists (map (GetOrgRepos (org cfg)) (seq 1 k) ++ fan).
  split; [rewrite Hreq', Hreq2, Hk, <- app_assoc; reflexivity |].
  intros owner repo branch since' Hin.
  apply in_app_or in Hin as [Hin|Hin].
  - apply in_map_iff in Hin as (p & Hp & _). discriminate.
  - apply (Permutation_in _ Hfan) in Hin.
    unfold cycle_requests in Hin.
    apply in_flat_map in Hin as (ri & _ & Hin).
    destruct Hin as [Hin|Hin]; [discriminate |].
    apply in_flat_map in Hin as (b & _ & Hin).
    destruct Hin as [Hin|Hin].
    + injection Hin as _ _ _ <-. reflexivity.
    + unfold posts_of in Hin.
      destruct (fetched_commits e _ _ _ _) as [|c cs]; [destruct Hin |].
      destruct (message_of e _ _ (c :: cs)); [| destruct Hin].
      destruct Hin as [Hin|[]]. discriminate.
Qed.

Lemma X18_witness :
  main Scenario.cfg Scenario.healthy 2 Scenario.start =
    (Ret tt, snd (main Scenario.cfg Scenario.healthy 2 Scenario.start)) /\
  ISODateString (watermark Scenario.start) = JIso 900 /\
  exists new,
    requests (snd (main Scenario.cfg Scenario.healthy 2 Scenario.start)) =
      requests Scenario.start ++ new /\
    forall owner repo branch since',
      In (GetCommits owner repo branch since') new ->
      since' = ISODateString (watermark Scenario.start).
Proof.
  split; [vm_compute; reflexivity |].
  split; [vm_compute; reflexivity |].
  apply (X18_since_filter_is_printed_watermark Scenario.cfg Scenario.healthy 2
           Scenario.start).
  vm_compute. reflexivity.
Defined.

(** X19. [getBranchCommits] always returns, and what it returns is either the
    commit list exactly as the platform sent it or the empty list: it never
    filters, reorders or shortens the list. *)
Theorem X19_commit_list_is_whole_or_empty cfg e owner repo branch since w :
  exists commits w',
    getBranchCommits cfg e owner repo branch since w = (Ret commits, w') /\
    (commits = [] \/
     branch_commits e owner repo branch (ISODateString since) = Ok commits).
Proof.
  destruct (getBranchCommits_spec cfg e owner repo branch since w)
    as (w' & Hrun & _).
  exists (commits_of e owner repo branch since), w'.
  split; [exact Hrun |].
  unfold commits_of, fetched_commits.
  destruct (branch_commits e owner repo branch (ISODateString since))
    as [[|c cs]|msg]; [left; reflexivity | | left; reflexivity].
  destruct (message_of e repo branch (c :: cs));
    [right; reflexivity | left; reflexivity].
Qed.

(** * Instances *)

(** Two repositories are served side by side: both branch lists are
    requested before either commit list, both commit lists before either
    message is posted, and the cycle takes the time of five requests, not of
    eight. *)
Lemma busy_cycle_overlaps :
  let w' := snd (main Scenario.cfg Scenario.busy 2 Scenario.start) in
  exists a b,
    requests w' =
      [GetOrgRepos "marlinprotocol" 1; GetOrgRepos "marlinprotocol" 2;
       GetRepoBranches "marlinprotocol" "A";
       GetRepoBranches "marlinprotocol" "B";
       GetCommits "marlinprotocol" "A" "main" (JIso 900);
       GetCommits "marlinprotocol" "B" "main" (JIso 900);
       PostWebhook "https://discord.test/api/webhooks/1" a;
       PostWebhook "https://discord.test/api/webhooks/1" b] /\
    map fst (trace w') =
      [1000000; 1005000; 1010000; 1010000; 1015000; 1015000;
       1020000; 1020000]%Z /\
    clock w' = 1025000%Z.
Proof.
  cbv zeta. eexists _, _.
  split; [vm_compute; reflexivity |].
  split; vm_compute; reflexivity.
Qed.

Lemma X7_witness :
  data_json Scenario.start =
    Ok (<["last_checked" := JIso 900]> (<["note" := JOther "keep me"]> ∅)) /\
  unhandled (snd (main Scenario.cfg Scenario.healthy 2 Scenario.start)) =
    unhandled Scenario.start /\
  unhandled (snd (main Scenario.cfg Scenario.down 2 Scenario.start)) =
    unhandled Scenario.start.
Proof.
  split; [reflexivity |].
  split.
  - apply (X7_cycle_leaves_no_unhandled_rejection Scenario.cfg
             Scenario.healthy 2 Scenario.start
             (<["last_checked" := JIso 900]>
                (<["note" := JOther "keep me"]> ∅))).
    reflexivity.
  - apply (X7_cycle_leaves_no_unhandled_rejection Scenario.cfg
             Scenario.down 2 Scenario.start
             (<["last_checked" := JIso 900]>
                (<["note" := JOther "keep me"]> ∅))).
    reflexivity.
Defined.

Lemma X5_witness :
  let w' := snd (main Scenario.cfg Scenario.down 2 Scenario.start) in
  main Scenario.cfg Scenario.down 2 Scenario.start
    = (Throw "Bad credentials", w') /\
  data_json w' = data_json Scenario.start /\
  commits_json w' = commits_json Scenario.start /\
  unhandled w' = unhandled Scenario.start /\
  watermark w' = watermark Scenario.start /\
  ((data_json Scenario.start = Fail "Bad credentials" /\ w' = Scenario.start) \/
   (exists p, 1 <= p /\
              org_repos Scenario.down (org Scenario.cfg) p
                = Fail "Bad credentials" /\
              last (requests w') = Some (GetOrgRepos (org Scenario.cfg) p))).
Proof.
  cbv zeta. split; [vm_compute; reflexivity |].
  apply (X5_aborted_cycle_writes_nothing Scenario.cfg Scenario.down 2).
  vm_compute. reflexivity.
Defined.

Lemma X6_witness :
  let run := getOrgCommits Scenario.cfg
               (Scenario.platform [] (Ok []) (Ok []) (Ok tt)) 2
               "marlinprotocol" (Num 900000) Scenario.start in
  exists repos w1,
    getOrgRepos 2 (Scenario.platform [] (Ok []) (Ok []) (Ok tt))
      "marlinprotocol" (Num 900000) Scenario.start = (Ret repos, w1) /\
    fst run = Ret (cycle_result (Scenario.platform [] (Ok []) (Ok []) (Ok tt))
                     (Num 900000) repos) /\
    commits_json (snd run) = match repos with
                             | [] => commits_json Scenario.start
                             | _ :: _ => Some []
                             end.
Proof.
  cbv zeta.
  destruct (X6_commits_file_only_when_listed Scenario.cfg
              (Scenario.platform [] (Ok []) (Ok []) (Ok tt)) 2
              "marlinprotocol" (Num 900000) Scenario.start []
              (snd (getOrgCommits Scenario.cfg
                      (Scenario.platform [] (Ok []) (Ok []) (Ok tt)) 2
                      "marlinprotocol" (Num 900000) Scenario.start))
              (<["last_checked" := JIso 900]>
                 (<["note" := JOther "keep me"]> ∅)))
    as (repos & w1 & Hlist & Hr & Hc & _);
    [reflexivity | vm_compute; reflexivity |].
  exists repos, w1. split; [exact Hlist |]. split.
  - rewrite <- Hr. vm_compute. reflexivity.
  - rewrite Hc. destruct repos; reflexivity.
Defined.

Lemma X9_witness :
  exists repos w1,
    getOrgRepos 2 Scenario.healthy "marlinprotocol" (Num 900000) Scenario.start
      = (Ret repos, w1) /\
    Forall2 (fun u repoInfo =>
               repo u = name repoInfo /\
               branchCommits u <> [] /\
               map branch (branchCommits u) =
               map branch_name
                   (branches_of Scenario.healthy (owner_login repoInfo)
                                (name repoInfo)))
            (cycle_result Scenario.healthy (Num 900000) Scenario.one)
            (List.filter (has_branches Scenario.healthy) repos).
Proof.
  apply (X9_result_lists_repositories_with_branches Scenario.cfg
           Scenario.healthy 2 "marlinprotocol" (Num 900000) Scenario.start
           (cycle_result Scenario.healthy (Num 900000) Scenario.one)
           (snd (getOrgCommits Scenario.cfg Scenario.healthy 2
                   "marlinprotocol" (Num 900000) Scenario.start))).
  vm_compute. reflexivity.
Defined.

Lemma X11_witness :
  exists new,
    requests (snd (getOrgCommits Scenario.cfg Scenario.healthy 2
                     "marlinprotocol" (Num 900000) Scenario.start)) =
      requests Scenario.start ++ new /\
    count_posts new =
      nonempty_batches (cycle_result Scenario.healthy (Num 900000)
                          Scenario.one).
Proof.
  apply (X11_one_post_per_nonempty_batch Scenario.cfg Scenario.healthy 2
           "marlinprotocol" (Num 900000) Scenario.start).
  vm_compute. reflexivity.
Defined.

Lemma X12_witness :
  let evs := [Tick; Tick; Settle Scenario.down 2; Tick;
              Settle Scenario.healthy 2] in
  exists w' s',
    steps Scenario.cfg Scenario.polling evs = Some w' /\
    well_timed evs /\
    four_digit_year (clock Scenario.polling) = true /\
    four_digit_year (clock w') = true /\
    watermark Scenario.polling = Num 1025000 /\
    watermark w' = Num s' /\ (1025000 <= s' <= clock w')%Z.
Proof.
  cbv zeta.
  set (evs := [Tick; Tick; Settle Scenario.down 2; Tick;
               Settle Scenario.healthy 2]).
  set (w' := default Scenario.start (steps Scenario.cfg Scenario.polling evs)).
  assert (steps Scenario.cfg Scenario.polling evs = Some w') as Hrun
    by (vm_compute; reflexivity).
  assert (well_timed evs) as Hwt
    by (repeat constructor; simpl; intros; lia).
  assert (four_digit_year (clock Scenario.polling) = true) as Hlo
    by (vm_compute; reflexivity).
  assert (four_digit_year (clock w') = true) as Hhi
    by (vm_compute; reflexivity).
  assert (watermark Scenario.polling = Num 1025000) as Hs
    by (vm_compute; reflexivity).
  assert (1025000 <= clock Scenario.polling)%Z as Hle
    by (vm_compute; discriminate).
  destruct (X12_watermark_never_moves_back Scenario.cfg evs Scenario.polling
              w' 1025000 Hrun Hwt Hlo Hhi Hs Hle)
    as (s' & Hs' & Hbound & Hback).
  exists w', s'.
  split; [exact Hrun | split; [exact Hwt | split; [exact Hlo |]]].
  split; [exact Hhi | split; [exact Hs | split; [exact Hs' |]]].
  split; [apply Hback; reflexivity | apply Hbound].
Defined.

Lemma X13_witness :
  exists w',
    steps Scenario.cfg Scenario.polling [Tick; Tick] = Some w' /\
    (isFetching w' = true <-> exists since, pending w' = Some since).
Proof.
  destruct (steps Scenario.cfg Scenario.polling [Tick; Tick])
    as [w'|] eqn:Hrun; [| vm_compute in Hrun; discriminate].
  exists w'. split; [reflexivity |].
  apply (X13_flag_tracks_running_cycle Scenario.cfg Scenario.healthy 2
           Scenario.start Scenario.polling [Tick; Tick] w').
  - reflexivity.
  - vm_compute. reflexivity.
  - exact Hrun.
Defined.

Lemma X17_witness :
  exists w1 w2,
    step Scenario.cfg Scenario.running (Settle Scenario.healthy 2) = Some w1 /\
    steps Scenario.cfg Scenario.running
      (repeat Tick 3 ++ [Settle Scenario.healthy 2]) = Some w2 /\
    same_but_console w1 w2.
Proof.
  destruct (step Scenario.cfg Scenario.running (Settle Scenario.healthy 2))
    as [w1|] eqn:Hstep; [| vm_compute in Hstep; discriminate].
  destruct (X17_skipped_ticks_change_only_the_console Scenario.cfg
              Scenario.healthy 2 Scenario.running 3 w1)
    as (w2 & Hrun & Hsame);
    [vm_compute; reflexivity | vm_compute; reflexivity | exact Hstep |].
  exists w1, w2. split; [reflexivity | split; assumption].
Defined.
